(** * Braille chord-to-text input engine: a verification development

    A shallow embedding of the input-interpretation pipeline of the
    braille-vscode extension: the data unifier ([unified-table.ts]), the
    two prefix matchers ([indicator-matcher.ts], [multi-cell-matcher.js]),
    the mode state machine ([state-machine.ts]), the pipeline driver
    ([extension.ts]) and the overlay tracker ([braille-tracker.ts]).

    Conventions.
    - Dot keys, roles, ids and tags are ASCII and are Rocq [string]s.
    - Print text and rendered braille are JavaScript strings that hold
      non-ASCII characters; they are lists of UTF-16 code units ([jsstring]).
    - A JavaScript [Map] is a [gmap]; an array is a [list] whose last
      element is the one [push] appended and [pop] removes.
    - Methods that mutate [this] take the object and return the new one;
      a method with a result returns a pair. *)

From Stdlib Require Import ZArith NArith List String Ascii Bool Lia.
From stdpp Require Import base option list strings gmap.

Local Open Scope N_scope.
Local Open Scope nat_scope.

(** ** Shared data model ([data/types]) *)

(** A JavaScript string of arbitrary characters, as UTF-16 code units. *)
Definition jsstring := list N.

Inductive Mode := grade1 | grade2 | kana | nemeth.
Inductive IndicatorScope := symbol | word | passage.
Inductive IndicatorType := mode_switch | modifier_type.
Inductive ModifierKind := capital | numeric | typeform.
Inductive Action := enter | exit.

#[global] Instance Mode_eq_dec : EqDecision Mode.
Proof. solve_decision. Defined.
#[global] Instance IndicatorScope_eq_dec : EqDecision IndicatorScope.
Proof. solve_decision. Defined.
#[global] Instance IndicatorType_eq_dec : EqDecision IndicatorType.
Proof. solve_decision. Defined.
#[global] Instance ModifierKind_eq_dec : EqDecision ModifierKind.
Proof. solve_decision. Defined.
#[global] Instance Action_eq_dec : EqDecision Action.
Proof. solve_decision. Defined.

Record DotMapping := mkDotMapping {
  dm_print : jsstring;
  dm_role : string;
  dm_id : string
}.

(** [mappings] is the partial record [Partial<Record<Mode, DotMapping>>]. *)
Record UnifiedEntry := mkUnifiedEntry {
  ue_dots : string;
  mappings : Mode -> option DotMapping
}.

Record IndicatorDef := mkIndicatorDef {
  ind_id : string;
  ind_dots : list string;
  ind_dotsKey : string;
  action : Action;
  targetMode : Mode;
  scope : IndicatorScope;
  indicatorType : IndicatorType;
  modifier : option ModifierKind;
  ind_tags : list string
}.

Record MultiCellEntry := mkMultiCellEntry {
  mc_id : string;
  mc_dots : list string;
  mc_dotsKey : string;
  mc_print : jsstring;
  mc_mode : Mode;
  mc_role : string
}.

(** ** Mode state machine ([StateMachine]) *)

Module StateMachine.

(** One invocation of the mode-change callback:
    [onModeChange(oldMode, newMode, indicator)]. *)
Record ModeChange := mkModeChange {
  oldMode : Mode;
  newMode : Mode;
  by_indicator : IndicatorDef
}.

(** The fields of the class. [onModeChange] is [true] when a callback is
    registered; the callback is host code, so what the machine does with it
    is the sequence of its invocations, kept in [callbackLog] (oldest
    first). [modeStack] has its top at the end, as [push]/[pop] do. *)
Record t := mk {
  currentMode : Mode;
  modeStack : list Mode;
  activeScope : option IndicatorScope;
  symbolCount : nat;
  pendingModifier : option ModifierKind;
  onModeChange : bool;
  callbackLog : list ModeChange
}.

(** [new StateMachine(initialMode)] *)
Definition new (initialMode : Mode) : t :=
  {| currentMode := initialMode; modeStack := [];
     activeScope := None; symbolCount := 0;
     pendingModifier := None; onModeChange := false; callbackLog := [] |}.

Definition getMode (s : t) : Mode := currentMode s.
Definition getScope (s : t) : option IndicatorScope := activeScope s.

Definition setModeChangeCallback (s : t) : t :=
  {| currentMode := currentMode s; modeStack := modeStack s;
     activeScope := activeScope s; symbolCount := symbolCount s;
     pendingModifier := pendingModifier s; onModeChange := true;
     callbackLog := callbackLog s |}.

Definition set_pendingModifier (m : option ModifierKind) (s : t) : t :=
  {| currentMode := currentMode s; modeStack := modeStack s;
     activeScope := activeScope s; symbolCount := symbolCount s;
     pendingModifier := m; onModeChange := onModeChange s;
     callbackLog := callbackLog s |}.

(** The indicator literal that [returnToBase] hands to the callback. *)
Definition auto_return (target : Mode) : IndicatorDef :=
  {| ind_id := "auto_return"; ind_dots := []; ind_dotsKey := "";
     action := exit; targetMode := target; scope := symbol;
     indicatorType := mode_switch; modifier := None; ind_tags := [] |}.

(** [modeStack.length > 0 ? modeStack.pop()! : "grade1"]: the mode that
    becomes current, and the stack that is left. *)
Definition popOrBase (st : list Mode) : Mode * list Mode :=
  match st with
  | [] => (grade1, [])
  | _ :: _ => (List.last st grade1, removelast st)
  end.

Definition returnToBase (s : t) : t :=
  let old := currentMode s in
  let '(cur, st) := popOrBase (modeStack s) in
  {| currentMode := cur; modeStack := st;
     activeScope := None; symbolCount := 0;
     pendingModifier := pendingModifier s;
     onModeChange := onModeChange s;
     callbackLog :=
       if onModeChange s && negb (bool_decide (old = cur))
       then callbackLog s ++ [mkModeChange old cur (auto_return cur)]
       else callbackLog s |}.

Definition enterMode (indicator : IndicatorDef) (s : t) : bool * t :=
  let old := currentMode s in
  let new_ := targetMode indicator in
  if bool_decide (old = new_)
     && bool_decide (activeScope s = Some (scope indicator))
  then (false, s)
  else (true,
        {| currentMode := new_; modeStack := modeStack s ++ [old];
           activeScope := Some (scope indicator); symbolCount := 0;
           pendingModifier := pendingModifier s;
           onModeChange := onModeChange s;
           callbackLog :=
             if onModeChange s
             then callbackLog s ++ [mkModeChange old new_ indicator]
             else callbackLog s |}).

Definition exitMode (indicator : IndicatorDef) (s : t) : bool * t :=
  if bool_decide (currentMode s = grade1)
     && bool_decide (length (modeStack s) = 0)
  then (false, s)
  else
    let old := currentMode s in
    let s' := returnToBase s in
    (negb (bool_decide (old = currentMode s')), s').

Definition processIndicator (indicator : IndicatorDef) (s : t) : bool * t :=
  match indicatorType indicator with
  | modifier_type =>
      match action indicator, modifier indicator with
      | enter, Some m => (true, set_pendingModifier (Some m) s)
      | _, _ => (true, set_pendingModifier None s)
      end
  | mode_switch =>
      match action indicator with
      | enter => enterMode indicator s
      | exit => exitMode indicator s
      end
  end.

Definition consumeModifier (s : t) : option ModifierKind * t :=
  (pendingModifier s, set_pendingModifier None s).

Definition hasPendingModifier (s : t) : bool :=
  bool_decide (pendingModifier s <> None).

Definition onCharacterEmitted (s : t) : t :=
  if bool_decide (activeScope s = Some symbol) then
    let s1 :=
      {| currentMode := currentMode s; modeStack := modeStack s;
         activeScope := activeScope s; symbolCount := S (symbolCount s);
         pendingModifier := pendingModifier s;
         onModeChange := onModeChange s; callbackLog := callbackLog s |} in
    if 1 <=? symbolCount s1 then returnToBase s1 else s1
  else s.

Definition onSpace (s : t) : t :=
  if bool_decide (activeScope s = Some word) then returnToBase s else s.

Definition reset (s : t) : t :=
  {| currentMode := grade1; modeStack := [];
     activeScope := None; symbolCount := 0;
     pendingModifier := None; onModeChange := onModeChange s;
     callbackLog := callbackLog s |}.

End StateMachine.

(** ** JavaScript string and array primitives used by the engine *)

(** [cells.join(sep)] *)
Definition join (sep : string) (cells : list string) : string :=
  String.concat sep cells.

(** [s.startsWith(p)] *)
Definition startsWith (s p : string) : bool := String.prefix p s.

(** [s.includes(sub)] *)
Fixpoint includes (s sub : string) : bool :=
  String.prefix sub s ||
  match s with
  | EmptyString => false
  | String _ rest => includes rest sub
  end.

(** [arr.includes(x)] on an array of strings *)
Definition arr_includes (arr : list string) (x : string) : bool :=
  existsb (String.eqb x) arr.

(** [Math.max(1, ...lengths)] *)
Definition max1 (lengths : list nat) : nat := fold_right Nat.max 1 lengths.

(** [s.split("").sort().join("")]: the characters in ascending code order. *)
Fixpoint insert_char (c : ascii) (cs : list ascii) : list ascii :=
  match cs with
  | [] => [c]
  | d :: rest =>
      if (nat_of_ascii c <=? nat_of_ascii d)%nat then c :: cs
      else d :: insert_char c rest
  end.

Definition sort_chars (s : string) : string :=
  string_of_list_ascii
    (fold_right insert_char [] (list_ascii_of_string s)).

(** ** Indicator matcher ([IndicatorMatcher]) *)

Inductive IndicatorMatchResult :=
| IMatched (indicator : IndicatorDef)
| IMatchedWithLeftover (indicator : IndicatorDef) (leftoverCells : list string)
| IPending
| INone (bufferedCells : list string).

Module IndicatorMatcher.

Record t := mk {
  indicators : list IndicatorDef;
  pendingCells : list string;
  deferredMatch : option IndicatorDef;
  maxCells : nat
}.

Definition new : t :=
  {| indicators := []; pendingCells := [];
     deferredMatch := None; maxCells := 1 |}.

Definition setIndicators (inds : list IndicatorDef) (m : t) : t :=
  {| indicators := inds; pendingCells := pendingCells m;
     deferredMatch := deferredMatch m;
     maxCells := max1 (map (fun i => length (ind_dots i)) inds) |}.

Definition with_buffer (cells : list string)
    (d : option IndicatorDef) (m : t) : t :=
  {| indicators := indicators m; pendingCells := cells;
     deferredMatch := d; maxCells := maxCells m |}.

(** [indicators.find(i => i.dotsKey === pendingKey)] *)
Definition findExact (m : t) (pendingKey : string) : option IndicatorDef :=
  List.find (fun i => String.eqb (ind_dotsKey i) pendingKey) (indicators m).

(** [indicators.some(i => i.dotsKey.startsWith(pendingKey + "|"))] *)
Definition hasLongerPrefix (m : t) (pendingKey : string) : bool :=
  existsb (fun i => startsWith (ind_dotsKey i) (pendingKey +:+ "|"))
          (indicators m).

Definition tryMatch (dotsKey : string) (m : t) : IndicatorMatchResult * t :=
  let cells := pendingCells m ++ [dotsKey] in
  let pendingKey := join "|" cells in
  let exact := findExact m pendingKey in
  let longer := hasLongerPrefix m pendingKey in
  match exact with
  | Some e =>
      if negb longer
      then (IMatched e, with_buffer [] None m)
      else (IPending, with_buffer cells (Some e) m)
  | None =>
      if longer && (length cells <? maxCells m)
      then (IPending, with_buffer cells (deferredMatch m) m)
      else
        match deferredMatch m with
        | Some matched =>
            let leftover := List.last cells "" in
            (IMatchedWithLeftover matched [leftover], with_buffer [] None m)
        | None => (INone cells, with_buffer [] (deferredMatch m) m)
        end
  end.

Definition hasPending (m : t) : bool := 0 <? length (pendingCells m).

Definition flushPending (m : t) : list string * t :=
  (pendingCells m, with_buffer [] None m).

Definition reset (m : t) : t := with_buffer [] None m.

End IndicatorMatcher.

(** ** Multi-cell matcher ([MultiCellMatcher]) *)

Inductive MultiCellMatchResult :=
| MMatched (entry : MultiCellEntry)
| MMatchedWithLeftover (entry : MultiCellEntry) (leftoverCells : list string)
| MPending
| MNone (bufferedCells : list string).

Module MultiCellMatcher.

Record t := mk {
  entries : list MultiCellEntry;
  pendingCells : list string;
  maxCells : nat
}.

Definition new : t := {| entries := []; pendingCells := []; maxCells := 1 |}.

Definition setEntries (es : list MultiCellEntry) (m : t) : t :=
  {| entries := es; pendingCells := pendingCells m;
     maxCells := max1 (map (fun e => length (mc_dots e)) es) |}.

Definition with_buffer (cells : list string) (m : t) : t :=
  {| entries := entries m; pendingCells := cells; maxCells := maxCells m |}.

(** [entries.filter(e => e.mode === mode || e.mode === "grade1")] *)
Definition modeEntries (m : t) (mode : Mode) : list MultiCellEntry :=
  List.filter
    (fun e => bool_decide (mc_mode e = mode)
              || bool_decide (mc_mode e = grade1))
    (entries m).

(** [modeEntries.find(e => e.dotsKey === key)] *)
Definition findExact (es : list MultiCellEntry) (key : string)
    : option MultiCellEntry :=
  List.find (fun e => String.eqb (mc_dotsKey e) key) es.

(** [modeEntries.some(e => e.dotsKey.startsWith(pendingKey + "|"))] *)
Definition hasLongerPrefix (es : list MultiCellEntry) (pendingKey : string)
    : bool :=
  existsb (fun e => startsWith (mc_dotsKey e) (pendingKey +:+ "|")) es.

(** The tail of [tryMatch], after the three early returns: the recovery
    that drops the last cell, then the [none] result. *)
Definition recover (es : list MultiCellEntry) (cells : list string) (m : t)
    : MultiCellMatchResult * t :=
  let none := (MNone cells, with_buffer [] m) in
  if 1 <? length cells then
    let prevKey := join "|" (removelast cells) in
    match findExact es prevKey with
    | Some prevMatch =>
        let leftover := List.last cells "" in
        (MMatchedWithLeftover prevMatch [leftover], with_buffer [] m)
    | None => none
    end
  else none.

Definition tryMatch (dotsKey : string) (mode : Mode) (m : t)
    : MultiCellMatchResult * t :=
  let cells := pendingCells m ++ [dotsKey] in
  let pendingKey := join "|" cells in
  let es := modeEntries m mode in
  let exact := findExact es pendingKey in
  let longer := hasLongerPrefix es pendingKey in
  match exact with
  | Some e =>
      if negb longer then (MMatched e, with_buffer [] m)
      else if length cells <? maxCells m
           then (MPending, with_buffer cells m)
           else (MMatched e, with_buffer [] m)
  | None =>
      if longer && (length cells <? maxCells m)
      then (MPending, with_buffer cells m)
      else recover es cells m
  end.

Definition hasPending (m : t) : bool := 0 <? length (pendingCells m).

Definition flushPending (m : t) : list string * t :=
  (pendingCells m, with_buffer [] m).

Definition reset (m : t) : t := with_buffer [] m.

End MultiCellMatcher.

(** ** Data unifier ([unified-table.ts]) *)

Record RawBrailleEntry := mkRawEntry {
  category : string;
  subcategory : string;
  role : string;
  print : option jsstring;
  dots : list string;
  tags : list string;
  id : string
}.

Record RawBrailleProfile := mkRawProfile {
  braille_type : string;
  profile_entries : list RawBrailleEntry
}.

Record UnifiedData := mkUnifiedData {
  singleCellMap : gmap string UnifiedEntry;
  numericMap : gmap string DotMapping;
  ud_indicators : list IndicatorDef;
  multiCellEntries : list MultiCellEntry
}.

(** [MODIFIER_SUBCATEGORIES[subcategory]], on the six keys of the table.
    (A subcategory that names a property inherited from [Object.prototype]
    is not a subcategory of any profile and is outside this model.) *)
Definition MODIFIER_SUBCATEGORIES (subcat : string) : option ModifierKind :=
  if String.eqb subcat "capital" then Some capital
  else if String.eqb subcat "numeric" then Some numeric
  else if String.eqb subcat "italic" then Some typeform
  else if String.eqb subcat "bold" then Some typeform
  else if String.eqb subcat "underline" then Some typeform
  else if String.eqb subcat "script" then Some typeform
  else None.

Definition systemIdToModes (systemId brailleType : string) : list Mode :=
  if String.eqb systemId "kana" then [kana]
  else if String.eqb systemId "nemeth" then [nemeth]
  else
    let hasGrade1 := includes brailleType "grade1" in
    let hasGrade2 := includes brailleType "grade2" in
    if hasGrade1 && hasGrade2 then [grade1; grade2]
    else if hasGrade2 then [grade2]
    else [grade1].

Definition dotsToKey (ds : list string) : string :=
  match ds with
  | [d] => sort_chars d
  | _ => join "|" (map sort_chars ds)
  end.

(** [!entry.print]: the print is [null] or the empty string. *)
Definition print_falsy (p : option jsstring) : bool :=
  match p with
  | None => true
  | Some [] => true
  | Some (_ :: _) => false
  end.

Definition print_text (p : option jsstring) : jsstring :=
  match p with Some t => t | None => [] end.

Definition isPaired (r : string) : bool :=
  String.eqb r "open" || String.eqb r "close".

(** [unified.mappings[mode] = mapping]; the entry object is shared with the
    map, so the caller stores the updated entry back under its key. *)
Definition set_mapping (mode : Mode) (mapping : DotMapping)
    (u : UnifiedEntry) : UnifiedEntry :=
  {| ue_dots := ue_dots u;
     mappings := fun m' =>
       if bool_decide (m' = mode) then Some mapping else mappings u m' |}.

Definition processSingleCell (entry : RawBrailleEntry) (mode : Mode)
    (map : gmap string UnifiedEntry) : gmap string UnifiedEntry :=
  if print_falsy (print entry) then map
  else
    let key := dotsToKey (dots entry) in
    let mapping :=
      {| dm_print := print_text (print entry);
         dm_role := role entry; dm_id := id entry |} in
    let fresh := {| ue_dots := key; mappings := fun _ => None |} in
    let '(unified, map1) :=
      match map !! key with
      | Some u => (u, map)
      | None => (fresh, <[key := fresh]> map)
      end in
    match mappings unified mode with
    | None => <[key := set_mapping mode mapping unified]> map1
    | Some existing =>
        let newIsPaired := isPaired (role entry) in
        let existingIsPaired := isPaired (dm_role existing) in
        if newIsPaired && negb existingIsPaired
        then <[key := set_mapping mode mapping unified]> map1
        else map1
    end.

Definition processIndicator (entry : RawBrailleEntry)
    (inds : list IndicatorDef) : list IndicatorDef :=
  let isTerminator :=
    arr_includes (tags entry) "terminator" || includes (id entry) "terminator" in
  let act := if isTerminator then exit else enter in
  let modifierKind := MODIFIER_SUBCATEGORIES (subcategory entry) in
  let indType :=
    match modifierKind with Some _ => modifier_type | None => mode_switch end in
  let target :=
    if arr_includes (tags entry) "kana" || String.eqb (subcategory entry) "kana"
    then kana
    else if arr_includes (tags entry) "grade1"
            || String.eqb (subcategory entry) "grade1"
    then grade1
    else if String.eqb (subcategory entry) "nemeth"
            || arr_includes (tags entry) "nemeth"
    then nemeth
    else grade1 in
  let sc :=
    if arr_includes (tags entry) "passage" then passage
    else if arr_includes (tags entry) "word" then word
    else symbol in
  inds ++ [ {| ind_id := id entry; ind_dots := dots entry;
               ind_dotsKey := dotsToKey (dots entry);
               action := act; targetMode := target; scope := sc;
               indicatorType := indType; modifier := modifierKind;
               ind_tags := tags entry |} ].

Definition processMultiCell (entry : RawBrailleEntry) (mode : Mode)
    (multiCells : list MultiCellEntry) : list MultiCellEntry :=
  multiCells ++ [ {| mc_id := id entry; mc_dots := dots entry;
                     mc_dotsKey := dotsToKey (dots entry);
                     mc_print := print_text (print entry);
                     mc_mode := mode; mc_role := role entry |} ].

(** The body of the innermost loop of [buildUnifiedData]: one raw entry of
    a profile whose derived modes are [modes]. *)
Definition addEntry (modes : list Mode) (data : UnifiedData)
    (entry : RawBrailleEntry) : UnifiedData :=
  if String.eqb (role entry) "indicator"
     || String.eqb (category entry) "indicator"
  then {| singleCellMap := singleCellMap data; numericMap := numericMap data;
          ud_indicators := processIndicator entry (ud_indicators data);
          multiCellEntries := multiCellEntries data |}
  else if length (dots entry) =? 1 then
    let scm :=
      fold_left (fun m mode => processSingleCell entry mode m)
                modes (singleCellMap data) in
    let num :=
      if String.eqb (role entry) "numbers" && negb (print_falsy (print entry))
      then
        let key := dotsToKey (dots entry) in
        match numericMap data !! key with
        | Some _ => numericMap data
        | None =>
            <[key := {| dm_print := print_text (print entry);
                        dm_role := role entry; dm_id := id entry |}]>
              (numericMap data)
        end
      else numericMap data in
    {| singleCellMap := scm; numericMap := num;
       ud_indicators := ud_indicators data;
       multiCellEntries := multiCellEntries data |}
  else if (1 <? length (dots entry)) && negb (print_falsy (print entry)) then
    {| singleCellMap := singleCellMap data; numericMap := numericMap data;
       ud_indicators := ud_indicators data;
       multiCellEntries :=
         fold_left (fun l mode => processMultiCell entry mode l)
                   modes (multiCellEntries data) |}
  else data.

Definition emptyData : UnifiedData :=
  {| singleCellMap := ∅; numericMap := ∅;
     ud_indicators := []; multiCellEntries := [] |}.

(** [allProfiles] is a [Map] iterated in insertion order: an association
    list from system id to its profiles. *)
Definition buildUnifiedData
    (allProfiles : list (string * list RawBrailleProfile)) : UnifiedData :=
  fold_left
    (fun data '(systemId, profiles) =>
       fold_left
         (fun data profile =>
            let modes := systemIdToModes systemId (braille_type profile) in
            fold_left (addEntry modes) (profile_entries profile) data)
         profiles data)
    allProfiles emptyData.

(** ** Dot mapper ([DotMapper]) *)

Module DotMapper.

(** [engine/dot-mapper.ts] is not among the sources; the four methods of
    [DotMapper] that the driver and the tracker call follow the
    specification. *)

(** Modelled from the spec: the "sort" of [DotMapper.dotsToKey], dot numbers
    in ascending order. *)
Fixpoint insert_dot (d : nat) (ds : list nat) : list nat :=
  match ds with
  | [] => [d]
  | e :: rest => if d <=? e then d :: ds else e :: insert_dot d rest
  end.

(** Modelled from the spec: the decimal digit of a dot number. *)
Definition digit_char (d : nat) : ascii := ascii_of_nat (48 + d).

(** Modelled from the spec: [DotMapper.dotsToKey]. "Filter out 0; sort;
    concatenate digits." *)
Definition dotsToKey (chord : list nat) : string :=
  string_of_list_ascii
    (map digit_char
       (fold_right insert_dot [] (List.filter (fun d => negb (d =? 0)) chord))).

(** Modelled from the spec: [DotMapper.lookup]. "Find the single-cell entry
    for the key; try [mapping[currentMode]]; on absence, fall back to
    [mapping[grade1]]"; [None] is the absent result. *)
Definition lookup (data : UnifiedData) (dotsKey : string) (mode : Mode)
    : option DotMapping :=
  match singleCellMap data !! dotsKey with
  | None => None
  | Some entry =>
      match mappings entry mode with
      | Some mp => Some mp
      | None => mappings entry grade1
      end
  end.

(** Modelled from the spec: [DotMapper.lookupNumeric]. "Look up the key in
    the numeric table." *)
Definition lookupNumeric (data : UnifiedData) (dotsKey : string)
    : option DotMapping :=
  numericMap data !! dotsKey.

(** Modelled from the spec: the summand [2^(d−1)] of a character of the dot
    key that is a dot [d ∈ {1..6}]; other characters add nothing. *)
Definition dot_weight (c : ascii) : N :=
  let d := nat_of_ascii c - 48 in
  if (1 <=? d) && (d <=? 6) then N.pow 2 (N.of_nat (d - 1)) else 0%N.

(** Modelled from the spec: the Unicode braille encoding. "A cell's code
    point is [U+2800 + Σ 2^(d−1)] over dots [d ∈ {1..6}]. The empty dot key
    encodes as [U+2800]." *)
Definition cell_code (dotsKey : string) : N :=
  (10240 + fold_right N.add 0 (map dot_weight (list_ascii_of_string dotsKey)))%N.

(** Modelled from the spec: [DotMapper.dotsKeyToUnicodeBraille], the
    one-character string of that code point. *)
Definition dotsKeyToUnicodeBraille (dotsKey : string) : jsstring :=
  [cell_code dotsKey].

End DotMapper.

(** ** Overlay tracker ([BrailleTracker]) *)

Module BrailleTracker.

(** [lineData]: line number to the array of dot keys of that line. *)
Abbreviation t := (gmap nat (list string)).

Definition new : t := ∅.

(** [while (arr.length <= col) arr.push("")], which runs
    [col + 1 - arr.length] times. *)
Fixpoint pushEmpty (times : nat) (arr : list string) : list string :=
  match times with
  | 0 => arr
  | S n => pushEmpty n (arr ++ [""%string])
  end.

Definition padTo (col : nat) (arr : list string) : list string :=
  pushEmpty (S col - length arr) arr.

Definition record (line col : nat) (dotsKey : string) (tr : t) : t :=
  let arr := match tr !! line with Some a => a | None => [] end in
  <[line := <[col := dotsKey]> (padTo col arr)]> tr.

Definition recordSpace (line col : nat) (tr : t) : t :=
  record line col "" tr.

(** The glyph [getLine] maps one stored entry to. *)
Definition glyph (dotsKey : string) : jsstring :=
  if String.eqb dotsKey "" then [10240%N]
  else DotMapper.dotsKeyToUnicodeBraille dotsKey.

Definition getLine (line : nat) (tr : t) : jsstring :=
  match tr !! line with
  | None => []
  | Some arr =>
      if length arr =? 0 then [] else List.concat (map glyph arr)
  end.

Definition hasLine (line : nat) (tr : t) : bool :=
  match tr !! line with
  | None => false
  | Some arr => 0 <? length arr
  end.

Definition clear (tr : t) : t := ∅.

End BrailleTracker.

(** ** Pipeline driver ([extension.ts]) *)

(** A request made to the host editor through [EditorOutput]:
    [insert(text, dotsKey)] or [insertSpace()]. *)
Inductive EditorRequest :=
| Insert (text : jsstring) (dotsKey : string)
| InsertSpace.

(** [「] and [」] *)
Definition kanaOpen : jsstring := [12300%N].
Definition kanaClose : jsstring := [12301%N].

Section Driver.

(** [String.prototype.toUpperCase], a primitive of the host language. *)
Variable toUpperCase : jsstring -> jsstring.

(** The module-level variables of the extension. The editor is the host's:
    it is kept as the sequence of requests made to it, oldest first. The
    chord detector's timer and the overlay decorations are left to the
    host. *)
Record Driver := mkDriver {
  isActive : bool;
  stateMachine : StateMachine.t;
  indicatorMatcher : IndicatorMatcher.t;
  multiCellMatcher : MultiCellMatcher.t;
  unifiedData : UnifiedData;
  isNumericMode : bool;
  kanaBracketOpen : bool;
  editorOutput : list EditorRequest
}.

Definition with_stateMachine (sm : StateMachine.t) (d : Driver) : Driver :=
  mkDriver (isActive d) sm (indicatorMatcher d) (multiCellMatcher d)
           (unifiedData d) (isNumericMode d) (kanaBracketOpen d)
           (editorOutput d).

Definition with_indicatorMatcher (im : IndicatorMatcher.t) (d : Driver)
    : Driver :=
  mkDriver (isActive d) (stateMachine d) im (multiCellMatcher d)
           (unifiedData d) (isNumericMode d) (kanaBracketOpen d)
           (editorOutput d).

Definition with_multiCellMatcher (mm : MultiCellMatcher.t) (d : Driver)
    : Driver :=
  mkDriver (isActive d) (stateMachine d) (indicatorMatcher d) mm
           (unifiedData d) (isNumericMode d) (kanaBracketOpen d)
           (editorOutput d).

Definition with_isNumericMode (b : bool) (d : Driver) : Driver :=
  mkDriver (isActive d) (stateMachine d) (indicatorMatcher d)
           (multiCellMatcher d) (unifiedData d) b (kanaBracketOpen d)
           (editorOutput d).

Definition with_kanaBracketOpen (b : bool) (d : Driver) : Driver :=
  mkDriver (isActive d) (stateMachine d) (indicatorMatcher d)
           (multiCellMatcher d) (unifiedData d) (isNumericMode d) b
           (editorOutput d).

(** [await editorOutput.insert(text, dotsKey)] *)
Definition insert (text : jsstring) (dotsKey : string) (d : Driver) : Driver :=
  mkDriver (isActive d) (stateMachine d) (indicatorMatcher d)
           (multiCellMatcher d) (unifiedData d) (isNumericMode d)
           (kanaBracketOpen d) (editorOutput d ++ [Insert text dotsKey]).

(** [await editorOutput.insertSpace()] *)
Definition insertSpace (d : Driver) : Driver :=
  mkDriver (isActive d) (stateMachine d) (indicatorMatcher d)
           (multiCellMatcher d) (unifiedData d) (isNumericMode d)
           (kanaBracketOpen d) (editorOutput d ++ [InsertSpace]).

(** [stateMachine.onCharacterEmitted()] *)
Definition charEmitted (d : Driver) : Driver :=
  with_stateMachine (StateMachine.onCharacterEmitted (stateMachine d)) d.

(** The state of the extension once [activate] has run. *)
Definition activate (data : UnifiedData) : Driver :=
  {| isActive := false;
     stateMachine :=
       StateMachine.setModeChangeCallback (StateMachine.new grade1);
     indicatorMatcher :=
       IndicatorMatcher.setIndicators (ud_indicators data)
                                      IndicatorMatcher.new;
     multiCellMatcher :=
       MultiCellMatcher.setEntries (multiCellEntries data)
                                   MultiCellMatcher.new;
     unifiedData := data;
     isNumericMode := false;
     kanaBracketOpen := true;
     editorOutput := [] |}.


Definition emitMultiCellMatch (entry : MultiCellEntry) (d : Driver) : Driver :=
  let text := mc_print entry in
  let '(modifier, sm) := StateMachine.consumeModifier (stateMachine d) in
  let d := with_stateMachine sm d in
  let text :=
    if bool_decide (modifier = Some capital) then toUpperCase text else text in
  let d := insert text (mc_dotsKey entry) d in
  let d := charEmitted d in
  with_isNumericMode false d.

(** The part of [processCharacter] after the numeric branch. *)
Definition normalLookup (mode : Mode) (modifier : option ModifierKind)
    (dotsKey : string) (d : Driver) : Driver :=
  match DotMapper.lookup (unifiedData d) dotsKey mode with
  | Some mapping =>
      let text := dm_print mapping in
      let '(text, d) :=
        if bool_decide (mode = kana) && String.eqb dotsKey "36"
        then (if kanaBracketOpen d then kanaOpen else kanaClose,
              with_kanaBracketOpen (negb (kanaBracketOpen d)) d)
        else (text, d) in
      let text :=
        if bool_decide (modifier = Some capital)
        then toUpperCase text else text in
      charEmitted (insert text dotsKey d)
  | None =>
      let braille := DotMapper.dotsKeyToUnicodeBraille dotsKey in
      charEmitted (insert braille dotsKey d)
  end.

Definition processCharacter (dotsKey : string) (d : Driver) : Driver :=
  let mode := StateMachine.getMode (stateMachine d) in
  let '(modifier, sm) := StateMachine.consumeModifier (stateMachine d) in
  let d := with_stateMachine sm d in
  if bool_decide (modifier = Some numeric) || isNumericMode d then
    match DotMapper.lookupNumeric (unifiedData d) dotsKey with
    | Some numMapping =>
        let d := with_isNumericMode true d in
        charEmitted (insert (dm_print numMapping) dotsKey d)
    | None =>
        normalLookup mode modifier dotsKey (with_isNumericMode false d)
    end
  else normalLookup mode modifier dotsKey d.

(** [for (const cellKey of cells) await f(cellKey)] *)
Definition forEachCell (f : string -> Driver -> Driver)
    (cells : list string) (d : Driver) : Driver :=
  fold_left (fun d cellKey => f cellKey d) cells d.

(** The two statements shared by the [matched] and
    [matched_with_leftover] branches of [processCellFallback]. *)
Definition applyIndicator (indicator : IndicatorDef) (d : Driver) : Driver :=
  let d :=
    with_stateMachine
      (snd (StateMachine.processIndicator indicator (stateMachine d))) d in
  if bool_decide (modifier indicator = Some numeric)
  then with_isNumericMode true d else d.

Definition processCellFallback (dotsKey : string) (d : Driver) : Driver :=
  let '(matchResult, im) :=
    IndicatorMatcher.tryMatch dotsKey (indicatorMatcher d) in
  let d := with_indicatorMatcher im d in
  match matchResult with
  | IMatched indicator => applyIndicator indicator d
  | IMatchedWithLeftover indicator leftoverCells =>
      forEachCell processCharacter leftoverCells (applyIndicator indicator d)
  | IPending => d
  | INone bufferedCells => forEachCell processCharacter bufferedCells d
  end.

Definition flushAllPending (d : Driver) : Driver :=
  let '(mcPending, mm) :=
    MultiCellMatcher.flushPending (multiCellMatcher d) in
  let d := with_multiCellMatcher mm d in
  let d := forEachCell processCellFallback mcPending d in
  let '(indPending, im) :=
    IndicatorMatcher.flushPending (indicatorMatcher d) in
  let d := with_indicatorMatcher im d in
  forEachCell processCharacter indPending d.

(** [chord] is the set of dots of the completed chord. *)
Definition handleChord (chord : list nat) (d : Driver) : Driver :=
  if existsb (Nat.eqb 0) chord then
    let d := flushAllPending d in
    let d := insertSpace d in
    let d := with_stateMachine (StateMachine.onSpace (stateMachine d)) d in
    with_isNumericMode false d
  else
    let dotsKey := DotMapper.dotsToKey chord in
    let mode := StateMachine.getMode (stateMachine d) in
    let '(mcResult, mm) :=
      MultiCellMatcher.tryMatch dotsKey mode (multiCellMatcher d) in
    let d := with_multiCellMatcher mm d in
    match mcResult with
    | MMatched entry => emitMultiCellMatch entry d
    | MMatchedWithLeftover entry leftoverCells =>
        forEachCell processCellFallback leftoverCells
                    (emitMultiCellMatch entry d)
    | MPending => d
    | MNone bufferedCells => forEachCell processCellFallback bufferedCells d
    end.

End Driver.

(** * Properties *)

(** ** Mode state machine *)

Module StateMachineFacts.
Import StateMachine.

Lemma popOrBase_snoc (st : list Mode) (top : Mode) :
  popOrBase (st ++ [top]) = (top, st).
Proof.
  unfold popOrBase. destruct (st ++ [top]) eqn:E.
  - destruct st; discriminate.
  - rewrite <- E. now rewrite List.last_last, removelast_last.
Qed.

Lemma popOrBase_length (st : list Mode) :
  length (snd (popOrBase st)) = pred (length st).
Proof.
  destruct st as [|a st] using rev_ind; [reflexivity|].
  rewrite popOrBase_snoc, length_app. simpl. lia.
Qed.

Lemma returnToBase_scope (s : t) : activeScope (returnToBase s) = None.
Proof. unfold returnToBase. now destruct (popOrBase (modeStack s)). Qed.

Lemma returnToBase_symbolCount (s : t) : symbolCount (returnToBase s) = 0.
Proof. unfold returnToBase. now destruct (popOrBase (modeStack s)). Qed.

Lemma returnToBase_pendingModifier (s : t) :
  pendingModifier (returnToBase s) = pendingModifier s.
Proof. unfold returnToBase. now destruct (popOrBase (modeStack s)). Qed.

Lemma returnToBase_pop (s : t) :
  (currentMode (returnToBase s), modeStack (returnToBase s))
  = popOrBase (modeStack s).
Proof. unfold returnToBase. now destruct (popOrBase (modeStack s)). Qed.

Lemma returnToBase_log (s : t) :
  callbackLog (returnToBase s) =
    if onModeChange s
       && negb (bool_decide (currentMode s = currentMode (returnToBase s)))
    then callbackLog s
           ++ [mkModeChange (currentMode s) (currentMode (returnToBase s))
                            (auto_return (currentMode (returnToBase s)))]
    else callbackLog s.
Proof. unfold returnToBase. now destruct (popOrBase (modeStack s)). Qed.

(** What the enter/exit round trip is asked to restore. *)
Definition restored (before after : t) : Prop :=
  currentMode after = currentMode before
  /\ activeScope after = activeScope before
  /\ length (modeStack after) = length (modeStack before).

Definition roundTrip (I X : IndicatorDef) (s : t) : t :=
  snd (processIndicator X (snd (processIndicator I s))).

Definition enterInd (target : Mode) (sc : IndicatorScope) : IndicatorDef :=
  {| ind_id := "enter"; ind_dots := []; ind_dotsKey := "";
     action := enter; targetMode := target; scope := sc;
     indicatorType := mode_switch; modifier := None; ind_tags := [] |}.

Definition exitInd (target : Mode) : IndicatorDef :=
  {| ind_id := "exit"; ind_dots := []; ind_dotsKey := "";
     action := exit; targetMode := target; scope := symbol;
     indicatorType := mode_switch; modifier := None; ind_tags := [] |}.

(** The machine inside a kana passage, entered from the initial state. *)
Definition inKanaPassage : t :=
  snd (processIndicator (enterInd kana passage) (new grade1)).




(** The amendment is tight: the round trip restores mode, scope and depth
    exactly when no scope was active, or when both steps are no-ops (the
    machine is at base and the enter asks for the mode and scope it already
    has). *)
Lemma round_trip_restores_iff (I X : IndicatorDef) (s : t) :
  indicatorType I = mode_switch -> action I = enter ->
  indicatorType X = mode_switch -> action X = exit ->
  restored s (roundTrip I X s)
  <-> activeScope s = None
      \/ (currentMode s = grade1 /\ modeStack s = []
          /\ targetMode I = grade1 /\ activeScope s = Some (scope I)).
Proof.
  intros HI1 HI2 HX1 HX2.
  unfold roundTrip, restored, processIndicator.
  rewrite HI1, HI2, HX1, HX2. unfold enterMode.
  destruct (decide (currentMode s = targetMode I)) as [Hm|Hm];
    [destruct (decide (activeScope s = Some (scope I))) as [Hsc|Hsc]|].
  - rewrite !bool_decide_eq_true_2 by assumption. cbn [andb snd].
    unfold exitMode.
    destruct (decide (currentMode s = grade1)) as [Hg|Hg];
      [destruct (modeStack s) as [|a st] eqn:Hst|].
    + rewrite !bool_decide_eq_true_2 by (rewrite ?Hst; auto). cbn [andb snd].
      split; [intros _; right; repeat split; congruence|].
      intros _. rewrite Hst. auto.
    + rewrite (bool_decide_eq_false_2 (length (a :: st) = 0)) by discriminate.
      rewrite andb_false_r. cbn [snd]. rewrite returnToBase_scope.
      split; [intros (_ & H & _); congruence|].
      intros [H|(_ & H & _)]; congruence.
    + rewrite (bool_decide_eq_false_2 (currentMode s = grade1)) by assumption.
      cbn [andb snd]. rewrite returnToBase_scope.
      split; [intros (_ & H & _); congruence|].
      intros [H|(H & _)]; congruence.
  - rewrite (bool_decide_eq_false_2 (activeScope s = Some (scope I)))
      by assumption.
    rewrite andb_false_r. cbn [snd]. unfold exitMode. cbn [currentMode modeStack].
    rewrite (bool_decide_eq_false_2 (length (modeStack s ++ [currentMode s]) = 0))
      by (rewrite length_app; simpl; lia).
    rewrite andb_false_r. cbn [snd].
    unfold returnToBase. cbn [currentMode modeStack].
    rewrite popOrBase_snoc. cbn.
    split; [intros (_ & H & _); now left|].
    intros [H|(_ & _ & _ & H)]; [rewrite H; auto|congruence].
  - rewrite (bool_decide_eq_false_2 (currentMode s = targetMode I))
      by assumption.
    cbn [andb snd]. unfold exitMode. cbn [currentMode modeStack].
    rewrite (bool_decide_eq_false_2 (length (modeStack s ++ [currentMode s]) = 0))
      by (rewrite length_app; simpl; lia).
    rewrite andb_false_r. cbn [snd].
    unfold returnToBase. cbn [currentMode modeStack].
    rewrite popOrBase_snoc. cbn.
    split; [intros (_ & H & _); now left|].
    intros [H|(H1 & _ & H2 & _)]; [rewrite H; auto|congruence].
Qed.

(** The machine after the grade-1 indicator was processed in the initial
    state, with a callback registered: grade1 with scope passage, and
    grade1 on the stack. *)
Definition grade1OverGrade1 : t :=
  snd (processIndicator (enterInd grade1 passage)
                        (setModeChangeCallback (new grade1))).

(** C3, as stated, fails: in a state that is not the base state, an exit
    that pops the mode it is already in returns false and does not fire
    the registered callback. *)
Lemma exit_to_same_mode_reports_no_change :
  let s := grade1OverGrade1 in
  let r := processIndicator (exitInd grade1) s in
  ~ (currentMode s = grade1 /\ modeStack s = [])
  /\ onModeChange s = true
  /\ fst r = false
  /\ callbackLog (snd r) = callbackLog s
  /\ modeStack (snd r) = [].
Proof.
  cbv zeta. split; [|repeat split; reflexivity].
  intros [_ H]. vm_compute in H. discriminate.
Qed.

(** C3 (amended): an exit indicator processed at grade1 with an empty stack
    changes nothing and returns false. In every other state it pops the
    stack (or restores grade1 when the stack is empty), clears the active
    scope and resets [symbolCount] to 0, keeping the pending modifier; it
    returns true exactly when the restored mode differs from the mode
    that was current, and exactly then a registered callback is fired,
    once, with the old and the new mode. *)
Theorem exit_indicator_behaviour (X : IndicatorDef) (s : t) :
  indicatorType X = mode_switch -> action X = exit ->
  let r := fst (processIndicator X s) in
  let s' := snd (processIndicator X s) in
  (currentMode s = grade1 /\ modeStack s = [] -> r = false /\ s' = s)
  /\ (~ (currentMode s = grade1 /\ modeStack s = []) ->
      (modeStack s = [] -> currentMode s' = grade1 /\ modeStack s' = [])
      /\ (forall st top, modeStack s = st ++ [top] ->
            currentMode s' = top /\ modeStack s' = st)
      /\ activeScope s' = None
      /\ symbolCount s' = 0
      /\ pendingModifier s' = pendingModifier s
      /\ r = negb (bool_decide (currentMode s = currentMode s'))
      /\ callbackLog s' =
           if onModeChange s && r
           then callbackLog s
                  ++ [mkModeChange (currentMode s) (currentMode s')
                                   (auto_return (currentMode s'))]
           else callbackLog s).
Proof.
  intros HX1 HX2. cbv zeta. unfold processIndicator. rewrite HX1, HX2.
  unfold exitMode. split.
  - intros [Hm Hst]. rewrite Hm, Hst. now cbn.
  - intros Hnb.
    assert (Hg : bool_decide (currentMode s = grade1)
                 && bool_decide (length (modeStack s) = 0) = false).
    { apply andb_false_iff.
      destruct (decide (currentMode s = grade1)) as [Hm|Hm].
      - right. apply bool_decide_eq_false_2. intros Hl.
        apply Hnb. split; [exact Hm|]. now destruct (modeStack s).
      - left. now apply bool_decide_eq_false_2. }
    rewrite Hg. cbn [fst snd].
    pose proof (returnToBase_pop s) as Hpop.
    repeat split.
    + rewrite H in Hpop. cbn in Hpop. congruence.
    + rewrite H in Hpop. cbn in Hpop. congruence.
    + rewrite H, popOrBase_snoc in Hpop. congruence.
    + rewrite H, popOrBase_snoc in Hpop. congruence.
    + apply returnToBase_scope.
    + apply returnToBase_symbolCount.
    + apply returnToBase_pendingModifier.
    + apply returnToBase_log.
Qed.

Lemma exit_indicator_behaviour_witness :
  let X := exitInd kana in
  let s := inKanaPassage in
  fst (processIndicator X s) = true
  /\ currentMode (snd (processIndicator X s)) = grade1
  /\ activeScope (snd (processIndicator X s)) = None.
Proof.
  cbv zeta.
  destruct (exit_indicator_behaviour (exitInd kana) inKanaPassage
              eq_refl eq_refl) as [_ H].
  destruct H as (_ & Hpop & Hsc & _ & _ & Hr & _).
  - intros [Hm _]. vm_compute in Hm. discriminate.
  - destruct (Hpop [] grade1 eq_refl) as [Hm _].
    split; [|split]; [|exact Hm|exact Hsc].
    rewrite Hr. cbv zeta in Hm. rewrite Hm. reflexivity.
Defined.

End StateMachineFacts.

(** ** Prefix matchers *)

Module MatcherFacts.

Definition isPendingI (r : IndicatorMatchResult) : bool :=
  match r with IPending => true | _ => false end.

Definition isPendingM (r : MultiCellMatchResult) : bool :=
  match r with MPending => true | _ => false end.

Lemma last_snoc (cells : list string) (k : string) :
  List.last (cells ++ [k]) ""%string = k.
Proof. apply List.last_last. Qed.

Lemma length_snoc_pos (cells : list string) (k : string) :
  (0 <? length (cells ++ [k])) = true.
Proof. rewrite length_app. apply Nat.ltb_lt. simpl. lia. Qed.

Lemma find_absent {A} (f : A -> bool) (l : list A) :
  (forall x, In x l -> f x = false) -> List.find f l = None.
Proof.
  induction l as [|a l IH]; intros H; [reflexivity|].
  simpl. rewrite (H a (or_introl eq_refl)). apply IH. intros x Hx.
  apply H. now right.
Qed.

Lemma existsb_absent {A} (f : A -> bool) (l : list A) :
  (forall x, In x l -> f x = false) -> existsb f l = false.
Proof.
  induction l as [|a l IH]; intros H; [reflexivity|].
  simpl. rewrite (H a (or_introl eq_refl)). apply IH. intros x Hx.
  apply H. now right.
Qed.

(** Two indicators: the capital prefix (dots 6) and a two-cell indicator
    that extends it. *)
Definition capitalInd : IndicatorDef :=
  {| ind_id := "capital"; ind_dots := ["6"%string]; ind_dotsKey := "6";
     action := enter; targetMode := grade1; scope := symbol;
     indicatorType := modifier_type; modifier := Some capital;
     ind_tags := [] |}.

Definition capitalWordInd : IndicatorDef :=
  {| ind_id := "capital_word"; ind_dots := ["6"%string; "6"%string];
     ind_dotsKey := "6|6";
     action := enter; targetMode := grade1; scope := word;
     indicatorType := modifier_type; modifier := Some capital;
     ind_tags := ["word"%string] |}.

(** The matcher after the cell "6" was offered: "6" is buffered and the
    capital indicator is deferred. *)
Definition afterCapital : IndicatorMatcher.t :=
  snd (IndicatorMatcher.tryMatch "6"
         (IndicatorMatcher.setIndicators [capitalInd; capitalWordInd]
                                         IndicatorMatcher.new)).

(** C5: when the key of the buffer extended by the new cell equals no
    indicator's key, no indicator's key starts with that key followed by the
    separator, and a deferred indicator is held, [tryMatch] returns
    [matched_with_leftover] with the deferred indicator and the new (last
    buffered) cell as the only leftover, and leaves the buffer empty and the
    deferred slot cleared. *)
Theorem indicator_deferred_commit
    (k : string) (m : IndicatorMatcher.t) (deferred : IndicatorDef) :
  let pendingKey := join "|" (IndicatorMatcher.pendingCells m ++ [k]) in
  (forall i, In i (IndicatorMatcher.indicators m) ->
             ind_dotsKey i <> pendingKey) ->
  (forall i, In i (IndicatorMatcher.indicators m) ->
             startsWith (ind_dotsKey i) (pendingKey +:+ "|") = false) ->
  IndicatorMatcher.deferredMatch m = Some deferred ->
  fst (IndicatorMatcher.tryMatch k m) = IMatchedWithLeftover deferred [k]
  /\ IndicatorMatcher.pendingCells (snd (IndicatorMatcher.tryMatch k m)) = []
  /\ IndicatorMatcher.deferredMatch (snd (IndicatorMatcher.tryMatch k m)) = None
  /\ IndicatorMatcher.hasPending (snd (IndicatorMatcher.tryMatch k m)) = false.
Proof.
  intros pendingKey Hexact Hlonger Hdef.
  unfold IndicatorMatcher.tryMatch. fold pendingKey.
  assert (He : IndicatorMatcher.findExact m pendingKey = None).
  { apply find_absent. intros i Hi. apply String.eqb_neq. now apply Hexact. }
  assert (Hl : IndicatorMatcher.hasLongerPrefix m pendingKey = false).
  { now apply existsb_absent. }
  rewrite He, Hl, Hdef. cbn. now rewrite last_snoc.
Qed.

Lemma indicator_deferred_commit_witness :
  fst (IndicatorMatcher.tryMatch "1" afterCapital)
    = IMatchedWithLeftover capitalInd ["1"%string]
  /\ IndicatorMatcher.pendingCells
       (snd (IndicatorMatcher.tryMatch "1" afterCapital)) = []
  /\ IndicatorMatcher.deferredMatch
       (snd (IndicatorMatcher.tryMatch "1" afterCapital)) = None
  /\ IndicatorMatcher.hasPending
       (snd (IndicatorMatcher.tryMatch "1" afterCapital)) = false.
Proof.
  apply (indicator_deferred_commit "1" afterCapital capitalInd).
  - intros i Hi. vm_compute in Hi.
    destruct Hi as [<-|[<-|[]]]; vm_compute; discriminate.
  - intros i Hi. vm_compute in Hi.
    destruct Hi as [<-|[<-|[]]]; vm_compute; reflexivity.
  - reflexivity.
Defined.

(** Three multi-cell entries: a kana entry and a grade1 entry with the same
    key, and a grade1 entry that continues it. *)
Definition kanaParen : MultiCellEntry :=
  {| mc_id := "kana_left_paren"; mc_dots := ["5"%string; "126"%string];
     mc_dotsKey := "5|126"; mc_print := [65288%N]; mc_mode := kana;
     mc_role := "punctuation" |}.

Definition leftParen : MultiCellEntry :=
  {| mc_id := "left_paren"; mc_dots := ["5"%string; "126"%string];
     mc_dotsKey := "5|126"; mc_print := [40%N]; mc_mode := grade1;
     mc_role := "punctuation" |}.

Definition emDash : MultiCellEntry :=
  {| mc_id := "em_dash"; mc_dots := ["5"%string; "126"%string; "36"%string];
     mc_dotsKey := "5|126|36"; mc_print := [8212%N]; mc_mode := grade1;
     mc_role := "punctuation" |}.

(** The matcher, in grade1, holding the cells "5" and "126": the buffer
    equals the key of both parentheses, and the em dash may still arrive.
    The kana parenthesis comes first in the table. *)
Definition afterParenCells : MultiCellMatcher.t :=
  snd (MultiCellMatcher.tryMatch "126" grade1
         (snd (MultiCellMatcher.tryMatch "5" grade1
                 (MultiCellMatcher.setEntries [kanaParen; leftParen; emDash]
                                              MultiCellMatcher.new)))).

(** [find] over a filtered list is [find] of the conjunction. *)
Lemma find_filter {A} (f g : A -> bool) (l : list A) :
  List.find f (List.filter g l) = List.find (fun x => g x && f x) l.
Proof.
  induction l as [|a l IH]; [reflexivity|]. simpl.
  destruct (g a); simpl; [destruct (f a); auto|exact IH].
Qed.

(** C6: call an entry of the table eligible when its mode is the current
    mode or grade1. When at least one cell is already buffered (so that the
    buffer with the new cell holds at least two), no eligible entry has the
    key of the extended buffer and no eligible entry's key starts with that
    key followed by the separator, then: if some eligible entry has the key
    of the buffer without the new cell, [tryMatch] returns
    [matched_with_leftover] with the first such entry of the table and the new
    cell as the only leftover; otherwise, no eligible entry having that key,
    it returns [none] with the whole buffer. In both cases the buffer is
    emptied. Entries of other modes play no part. *)
Theorem multicell_leftover_recovery
    (k : string) (mode : Mode) (m : MultiCellMatcher.t) :
  let cells := MultiCellMatcher.pendingCells m ++ [k] in
  let prevKey := join "|" (MultiCellMatcher.pendingCells m) in
  let eligible e := mc_mode e = mode \/ mc_mode e = grade1 in
  let recovered :=
    List.find
      (fun e => (bool_decide (mc_mode e = mode)
                 || bool_decide (mc_mode e = grade1))
                && String.eqb (mc_dotsKey e) prevKey)
      (MultiCellMatcher.entries m) in
  2 <= length cells ->
  (forall e, In e (MultiCellMatcher.entries m) -> eligible e ->
             mc_dotsKey e <> join "|" cells) ->
  (forall e, In e (MultiCellMatcher.entries m) -> eligible e ->
             startsWith (mc_dotsKey e) (join "|" cells +:+ "|") = false) ->
  MultiCellMatcher.tryMatch k mode m =
    (match recovered with
     | Some prev => MMatchedWithLeftover prev [k]
     | None => MNone cells
     end,
     MultiCellMatcher.with_buffer [] m)
  /\ (forall prev, recovered = Some prev ->
        In prev (MultiCellMatcher.entries m)
        /\ eligible prev /\ mc_dotsKey prev = prevKey)
  /\ (recovered = None ->
        forall e, In e (MultiCellMatcher.entries m) -> eligible e ->
                  mc_dotsKey e <> prevKey).
Proof.
  intros cells prevKey eligible recovered Hlen Hexact Hlonger.
  assert (Hel : forall e,
            bool_decide (mc_mode e = mode) || bool_decide (mc_mode e = grade1)
            = true <-> eligible e).
  { intros e. unfold eligible.
    rewrite orb_true_iff, !bool_decide_eq_true. reflexivity. }
  assert (Hin : forall e, In e (MultiCellMatcher.modeEntries m mode) ->
                          In e (MultiCellMatcher.entries m) /\ eligible e).
  { intros e He. apply filter_In in He as [He Hm]. now apply Hel in Hm. }
  split; [|split].
  - unfold MultiCellMatcher.tryMatch. fold cells.
    set (es := MultiCellMatcher.modeEntries m mode).
    assert (He : MultiCellMatcher.findExact es (join "|" cells) = None).
    { apply find_absent. intros e He. apply String.eqb_neq.
      destruct (Hin e He). now apply Hexact. }
    assert (Hl : MultiCellMatcher.hasLongerPrefix es (join "|" cells) = false).
    { apply existsb_absent. intros e Hes. destruct (Hin e Hes).
      now apply Hlonger. }
    rewrite He, Hl. cbn [andb].
    unfold MultiCellMatcher.recover.
    replace (1 <? length cells) with true
      by (symmetry; apply Nat.ltb_lt; lia).
    unfold cells at 1 2. rewrite removelast_last, last_snoc.
    unfold es, MultiCellMatcher.findExact, MultiCellMatcher.modeEntries.
    rewrite find_filter. fold prevKey. fold recovered.
    destruct recovered; reflexivity.
  - intros prev Hp. apply find_some in Hp as [Hp1 Hp2].
    apply andb_true_iff in Hp2 as [Hm Hk].
    apply Hel in Hm. apply String.eqb_eq in Hk. auto.
  - intros Hnone e He Hm Hk.
    pose proof (find_none _ _ Hnone e He) as Hf. cbn in Hf.
    apply Hel in Hm. rewrite Hm in Hf. cbn in Hf.
    apply String.eqb_neq in Hf. contradiction.
Qed.

Lemma multicell_leftover_recovery_witness :
  MultiCellMatcher.tryMatch "1" grade1 afterParenCells =
    (MMatchedWithLeftover leftParen ["1"%string],
     MultiCellMatcher.with_buffer [] afterParenCells)
  /\ mc_mode leftParen = grade1
  /\ mc_dotsKey leftParen = join "|" (MultiCellMatcher.pendingCells afterParenCells).
Proof.
  destruct (multicell_leftover_recovery "1" grade1 afterParenCells)
    as (Hres & Hprev & _).
  - vm_compute. lia.
  - intros e He Hm. vm_compute in He.
    destruct He as [<-|[<-|[<-|[]]]]; vm_compute; discriminate.
  - intros e He Hm. vm_compute in He.
    destruct He as [<-|[<-|[<-|[]]]]; vm_compute; reflexivity.
  - split; [exact Hres|].
    destruct (Hprev leftParen eq_refl) as (_ & _ & Hk).
    split; [reflexivity|exact Hk].
Defined.

(** The entry that the recovery returns is a mode-filtered entry whose key
    is the key of the cells buffered before the call. *)
Lemma recovered_entry_matches_prefix
    (mode : Mode) (m : MultiCellMatcher.t) (key : string)
    (prev : MultiCellEntry) :
  MultiCellMatcher.findExact (MultiCellMatcher.modeEntries m mode) key
    = Some prev ->
  In prev (MultiCellMatcher.entries m)
  /\ (mc_mode prev = mode \/ mc_mode prev = grade1)
  /\ mc_dotsKey prev = key.
Proof.
  intros H. apply find_some in H as [Hin Hk].
  apply filter_In in Hin as [Hin Hmode].
  apply String.eqb_eq in Hk. repeat split; auto.
  apply orb_true_iff in Hmode as [Hm|Hm]; apply bool_decide_eq_true in Hm; auto.
Qed.

(** C9: after [tryMatch] on either matcher the buffer is non-empty exactly
    when the result is [pending]: a [matched], [matched_with_leftover] or
    [none] result leaves the buffer empty ([hasPending] is false), and a
    [pending] result leaves the offered cell buffered after the others. *)
Theorem tryMatch_buffer_invariant :
  (forall (k : string) (m : IndicatorMatcher.t),
     let r := fst (IndicatorMatcher.tryMatch k m) in
     let m' := snd (IndicatorMatcher.tryMatch k m) in
     IndicatorMatcher.hasPending m' = isPendingI r
     /\ IndicatorMatcher.pendingCells m' =
          if isPendingI r then IndicatorMatcher.pendingCells m ++ [k] else [])
  /\ (forall (k : string) (mode : Mode) (m : MultiCellMatcher.t),
     let r := fst (MultiCellMatcher.tryMatch k mode m) in
     let m' := snd (MultiCellMatcher.tryMatch k mode m) in
     MultiCellMatcher.hasPending m' = isPendingM r
     /\ MultiCellMatcher.pendingCells m' =
          if isPendingM r then MultiCellMatcher.pendingCells m ++ [k] else []).
Proof.
  split.
  - intros k m. cbv zeta. unfold IndicatorMatcher.tryMatch.
    destruct (IndicatorMatcher.findExact _ _);
      [destruct (negb _)|destruct (_ && _); [|destruct (IndicatorMatcher.deferredMatch m)]];
      cbn [fst snd isPendingI IndicatorMatcher.with_buffer
           IndicatorMatcher.pendingCells IndicatorMatcher.hasPending];
      (split; [try reflexivity; apply length_snoc_pos | reflexivity]).
  - intros k mode m. cbv zeta.
    unfold MultiCellMatcher.tryMatch, MultiCellMatcher.recover.
    destruct (MultiCellMatcher.findExact _ (join _ (_ ++ _)));
      [destruct (negb _); [|destruct (_ <? MultiCellMatcher.maxCells m)]
      |destruct (_ && _);
         [|destruct (1 <? _); [destruct (MultiCellMatcher.findExact _ _)|]]];
      cbn [fst snd isPendingM MultiCellMatcher.with_buffer
           MultiCellMatcher.pendingCells MultiCellMatcher.hasPending];
      (split; [try reflexivity; apply length_snoc_pos | reflexivity]).
Qed.

End MatcherFacts.

(** ** Data unifier *)

Module UnifierFacts.

(** The mapping stored for a dot key under a mode, if any. *)
Definition mappingAt (map : gmap string UnifiedEntry) (key : string)
    (mode : Mode) : option DotMapping :=
  match map !! key with
  | Some u => mappings u mode
  | None => None
  end.

(** The mapping that [processSingleCell] builds from a raw entry. *)
Definition mappingOf (entry : RawBrailleEntry) : DotMapping :=
  {| dm_print := print_text (print entry);
     dm_role := role entry; dm_id := id entry |}.

Lemma mappingAt_set (map : gmap string UnifiedEntry) (key : string)
    (mode : Mode) (mp : DotMapping) (u : UnifiedEntry) :
  mappingAt (<[key := set_mapping mode mp u]> map) key mode = Some mp.
Proof.
  unfold mappingAt. rewrite lookup_insert_eq. cbn.
  now rewrite bool_decide_eq_true_2.
Qed.

(** First registration of a dot key under a mode stores the entry. *)
Lemma processSingleCell_first (entry : RawBrailleEntry) (mode : Mode)
    (map : gmap string UnifiedEntry) :
  print_falsy (print entry) = false ->
  mappingAt map (dotsToKey (dots entry)) mode = None ->
  mappingAt (processSingleCell entry mode map) (dotsToKey (dots entry)) mode
    = Some (mappingOf entry).
Proof.
  intros Hp Hnone. unfold processSingleCell. rewrite Hp.
  unfold mappingAt in Hnone.
  destruct (map !! dotsToKey (dots entry)) as [u|] eqn:Hu.
  - rewrite Hnone. apply mappingAt_set.
  - cbn. apply mappingAt_set.
Qed.

(** What the code does on a conflict (same dot key, same mode): the incoming
    entry replaces the stored one exactly when its role is open or close and
    the stored role is neither; in every other case the stored mapping
    stays. *)
Lemma processSingleCell_conflict (entry : RawBrailleEntry) (mode : Mode)
    (map : gmap string UnifiedEntry) (existing : DotMapping) :
  print_falsy (print entry) = false ->
  mappingAt map (dotsToKey (dots entry)) mode = Some existing ->
  mappingAt (processSingleCell entry mode map) (dotsToKey (dots entry)) mode
    = Some (if isPaired (role entry) && negb (isPaired (dm_role existing))
            then mappingOf entry else existing).
Proof.
  intros Hp Hex. unfold processSingleCell. rewrite Hp.
  unfold mappingAt in Hex.
  destruct (map !! dotsToKey (dots entry)) as [u|] eqn:Hu; [|discriminate].
  rewrite Hex.
  destruct (isPaired (role entry) && negb (isPaired (dm_role existing))).
  - apply mappingAt_set.
  - unfold mappingAt. now rewrite Hu.
Qed.

(** The part of the conflict policy for paired roles holds: an incoming open
    or close entry replaces a stored entry of any other role. *)
Lemma paired_overrides_plain (entry : RawBrailleEntry) (mode : Mode)
    (map : gmap string UnifiedEntry) (existing : DotMapping) :
  print_falsy (print entry) = false ->
  mappingAt map (dotsToKey (dots entry)) mode = Some existing ->
  isPaired (role entry) = true ->
  isPaired (dm_role existing) = false ->
  mappingAt (processSingleCell entry mode map) (dotsToKey (dots entry)) mode
    = Some (mappingOf entry).
Proof.
  intros Hp Hex Hnew Hold.
  rewrite (processSingleCell_conflict entry mode map existing Hp Hex).
  now rewrite Hnew, Hold.
Qed.

(** A stored punctuation entry is kept when a contraction arrives later. *)
Lemma punctuation_first_is_kept (entry : RawBrailleEntry) (mode : Mode)
    (map : gmap string UnifiedEntry) (existing : DotMapping) :
  print_falsy (print entry) = false ->
  mappingAt map (dotsToKey (dots entry)) mode = Some existing ->
  isPaired (role entry) = false ->
  mappingAt (processSingleCell entry mode map) (dotsToKey (dots entry)) mode
    = Some existing.
Proof.
  intros Hp Hex Hnew.
  rewrite (processSingleCell_conflict entry mode map existing Hp Hex).
  now rewrite Hnew.
Qed.

(** The profile of the repository's unit test "should override contraction
    with punctuation role when dots key conflicts": the groupsign "dis" and
    then the period, both on dots 256. *)
Definition contraction_dis : RawBrailleEntry :=
  {| category := "contraction"; subcategory := "groupsigns";
     role := "groupsigns"; print := Some [100; 105; 115]%N;
     dots := ["256"%string]; tags := []; id := "contraction_dis" |}.

Definition period : RawBrailleEntry :=
  {| category := "punctuation"; subcategory := "general";
     role := "punctuation"; print := Some [46%N];
     dots := ["256"%string]; tags := []; id := "period" |}.

Definition disThenPeriod : list (string * list RawBrailleProfile) :=
  [("ueb"%string,
    [ {| braille_type := "grade1 and grade2";
         profile_entries := [contraction_dis; period] |} ])].

(** C1 (the code departs from it): with the contraction registered first and
    the punctuation second on the same dot key and mode, the unifier keeps
    the contraction, in both derived modes; the punctuation entry is
    dropped. *)
Theorem punctuation_after_contraction_is_dropped :
  let map := singleCellMap (buildUnifiedData disThenPeriod) in
  mappingAt map "256" grade1 = Some (mappingOf contraction_dis)
  /\ mappingAt map "256" grade2 = Some (mappingOf contraction_dis)
  /\ dm_role (mappingOf contraction_dis) = "groupsigns"%string
  /\ dm_role (mappingOf period) = "punctuation"%string.
Proof. cbv zeta. repeat split; vm_compute; reflexivity. Qed.

(** The repository's unit test "should override with open/close role when
    dots key conflicts": the question mark, then the opening quotation mark,
    both on dots 236. *)
Definition question : RawBrailleEntry :=
  {| category := "punctuation"; subcategory := "general";
     role := "punctuation"; print := Some [63%N];
     dots := ["236"%string]; tags := []; id := "question" |}.

Definition left_quote : RawBrailleEntry :=
  {| category := "punctuation"; subcategory := "quotation";
     role := "open"; print := Some [8220%N];
     dots := ["236"%string]; tags := []; id := "left_quote" |}.

Definition contraction_his : RawBrailleEntry :=
  {| category := "contraction"; subcategory := "wordsigns";
     role := "wordsigns"; print := Some [104; 105; 115]%N;
     dots := ["236"%string]; tags := []; id := "contraction_his" |}.

Definition grade12 (es : list RawBrailleEntry)
    : list (string * list RawBrailleProfile) :=
  [("ueb"%string,
    [ {| braille_type := "grade1 and grade2"; profile_entries := es |} ])].

Example open_overrides_punctuation :
  mappingAt (singleCellMap (buildUnifiedData (grade12 [question; left_quote])))
            "236" grade1
  = Some (mappingOf left_quote).
Proof. vm_compute. reflexivity. Qed.

(** "should let open/close override punctuation (highest priority)" *)
Example open_overrides_contraction_and_punctuation :
  mappingAt
    (singleCellMap
       (buildUnifiedData (grade12 [contraction_his; question; left_quote])))
    "236" grade1
  = Some (mappingOf left_quote).
Proof. vm_compute. reflexivity. Qed.

(** "should normalize dots key order (sort digits)" *)
Example dots_key_is_sorted : dotsToKey ["42"%string] = "24"%string.
Proof. reflexivity. Qed.

End UnifierFacts.

(** ** Overlay tracker *)

Module TrackerFacts.
Import BrailleTracker.

(** The code unit that renders one stored entry. *)
Definition renderEntry (dotsKey : string) : N :=
  if String.eqb dotsKey "" then 10240%N else DotMapper.cell_code dotsKey.

(** The array stored for a line ([[]] when the line is not tracked). *)
Definition storedLine (line : nat) (tr : t) : list string :=
  match tr !! line with Some a => a | None => [] end.

Lemma pushEmpty_replicate (times : nat) (arr : list string) :
  pushEmpty times arr = arr ++ replicate times ""%string.
Proof.
  revert arr. induction times as [|n IH]; intros arr; simpl.
  - now rewrite app_nil_r.
  - rewrite IH, <- app_assoc. reflexivity.
Qed.

Lemma padTo_length (col : nat) (arr : list string) :
  length (padTo col arr) = Nat.max (length arr) (S col).
Proof.
  unfold padTo. rewrite pushEmpty_replicate, length_app, length_replicate. lia.
Qed.

Lemma concat_glyphs (arr : list string) :
  List.concat (map glyph arr) = map renderEntry arr.
Proof.
  induction arr as [|e arr IH]; [reflexivity|].
  simpl. rewrite IH. unfold glyph, renderEntry.
  now destruct (String.eqb e "").
Qed.

Lemma record_stored (line col : nat) (k : string) (tr : t) :
  storedLine line (record line col k tr)
  = <[col := k]> (storedLine line tr
                    ++ replicate (S col - length (storedLine line tr)) ""%string).
Proof.
  unfold storedLine, record. rewrite lookup_insert_eq.
  unfold padTo. now rewrite pushEmpty_replicate.
Qed.

(** C8: [record(line, col, k)] keeps the entries already stored for the
    line, fills the positions from the old length up to [col] with empty
    entries, and stores [k] at [col], so the stored line has length at least
    [col + 1]; [getLine(line)] afterwards is the sequence, in column order and
    of the same length, of one code unit per stored entry: U+2800 for an
    empty entry (a gap or a recorded space) and the Unicode braille code
    [U+2800 + Σ 2^(d−1)] of the dot key otherwise. *)
Theorem record_pads_and_getLine_renders
    (line col : nat) (k : string) (tr : t) :
  let old := storedLine line tr in
  let arr := storedLine line (record line col k tr) in
  record line col k tr !! line = Some arr
  /\ length arr = Nat.max (length old) (S col)
  /\ S col <= length arr
  /\ arr !! col = Some k
  /\ (forall i, i < length old -> i <> col -> arr !! i = old !! i)
  /\ (forall i, length old <= i -> i < col -> arr !! i = Some ""%string)
  /\ getLine line (record line col k tr) = map renderEntry arr
  /\ length (getLine line (record line col k tr)) = length arr
  /\ (forall i e, arr !! i = Some e ->
        getLine line (record line col k tr) !! i
        = Some (if String.eqb e "" then 10240%N else DotMapper.cell_code e)).
Proof.
  cbv zeta. rewrite record_stored.
  set (old := storedLine line tr).
  set (padded := old ++ replicate (S col - length old) ""%string).
  assert (Hlen : length padded = Nat.max (length old) (S col)).
  { unfold padded. rewrite length_app, length_replicate. lia. }
  assert (Hlookup : record line col k tr !! line = Some (<[col:=k]> padded)).
  { unfold record. rewrite lookup_insert_eq. unfold padTo.
    rewrite pushEmpty_replicate. reflexivity. }
  assert (Hget : getLine line (record line col k tr)
                 = map renderEntry (<[col:=k]> padded)).
  { unfold getLine. rewrite Hlookup.
    destruct (length (<[col:=k]> padded) =? 0) eqn:E.
    - apply Nat.eqb_eq in E. rewrite length_insert in E. lia.
    - apply concat_glyphs. }
  split; [exact Hlookup|].
  split; [now rewrite length_insert|].
  split; [rewrite length_insert; lia|].
  split; [apply list_lookup_insert_eq; lia|].
  split.
  { intros i Hi Hne. rewrite list_lookup_insert_ne by congruence.
    unfold padded. now rewrite lookup_app_l. }
  split.
  { intros i Hlo Hhi. rewrite list_lookup_insert_ne by lia.
    unfold padded. rewrite lookup_app_r by lia.
    apply lookup_replicate_2. lia. }
  split; [exact Hget|].
  split; [rewrite Hget; apply length_map|].
  intros i e He. rewrite Hget, list_lookup_fmap_Some.
  exists e. split; [reflexivity|exact He].
Qed.

(** The encodings checked by the repository's unit tests of
    [dotsKeyToUnicodeBraille]: U+2801, U+283F, U+2809 and U+2800. *)
Example braille_codes :
  map DotMapper.dotsKeyToUnicodeBraille
      ["1"%string; "123456"%string; "14"%string; ""%string]
  = [[10241]; [10303]; [10249]; [10240]]%N.
Proof. reflexivity. Qed.

(** "should record an empty string (braille space) at the position" *)
Example record_space_example :
  getLine 0 (record 0 2 "12" (recordSpace 0 1 (record 0 0 "1" new)))
  = [10241; 10240; 10243]%N.
Proof. vm_compute. reflexivity. Qed.

(** The repository's unit test "should fill gaps with empty strings when
    recording at non-zero column". *)
Example record_gap_example :
  getLine 0 (record 0 3 "1" new) = [10240; 10240; 10240; 10241]%N.
Proof. vm_compute. reflexivity. Qed.

End TrackerFacts.

(** ** Pipeline driver *)

(** An ASCII upper-casing function, the instance of [toUpperCase] at which the
    driver is evaluated on concrete inputs. *)
Definition asciiUpper (s : jsstring) : jsstring :=
  map (fun c => if ((97 <=? c) && (c <=? 122))%N then (c - 32)%N else c) s.

Section DriverFacts.

Variable toUpperCase : jsstring -> jsstring.

(** The numeric continuation is armed: the flag is set, or a numeric
    modifier is pending and will be consumed by the next character. *)
Definition numericArmed (d : Driver) : Prop :=
  isNumericMode d = true
  \/ StateMachine.pendingModifier (stateMachine d) = Some numeric.

Definition resolvesNumeric (data : UnifiedData) (k : string) : bool :=
  match DotMapper.lookupNumeric data k with Some _ => true | None => false end.

Lemma normalLookup_isNumericMode mode modifier k d :
  isNumericMode (normalLookup toUpperCase mode modifier k d) = isNumericMode d.
Proof.
  unfold normalLookup.
  destruct (DotMapper.lookup _ _ _); [|reflexivity].
  now destruct (bool_decide (mode = kana) && String.eqb k "36").
Qed.

Lemma normalLookup_unifiedData mode modifier k d :
  unifiedData (normalLookup toUpperCase mode modifier k d) = unifiedData d.
Proof.
  unfold normalLookup.
  destruct (DotMapper.lookup _ _ _); [|reflexivity].
  now destruct (bool_decide (mode = kana) && String.eqb k "36").
Qed.

Lemma processCharacter_unifiedData k d :
  unifiedData (processCharacter toUpperCase k d) = unifiedData d.
Proof.
  unfold processCharacter. cbn.
  destruct (bool_decide _ || isNumericMode d);
    [destruct (DotMapper.lookupNumeric _ _)|];
    try reflexivity; now rewrite normalLookup_unifiedData.
Qed.

(** One character while the continuation is armed: the flag afterwards
    tells whether the key resolved in the numeric table. *)
Lemma processCharacter_armed k d :
  numericArmed d ->
  isNumericMode (processCharacter toUpperCase k d)
  = resolvesNumeric (unifiedData d) k.
Proof.
  intros Harmed. unfold processCharacter, resolvesNumeric. cbn.
  assert (Hc : bool_decide (StateMachine.pendingModifier (stateMachine d)
                            = Some numeric) || isNumericMode d = true).
  { destruct Harmed as [H|H]; [rewrite H; apply orb_true_r|].
    rewrite bool_decide_eq_true_2 by exact H. reflexivity. }
  rewrite Hc. destruct (DotMapper.lookupNumeric _ _); [reflexivity|].
  now rewrite normalLookup_isNumericMode.
Qed.

(** One character while the continuation is not armed leaves the flag
    cleared. *)
Lemma processCharacter_unarmed k d :
  ~ numericArmed d ->
  isNumericMode (processCharacter toUpperCase k d) = false.
Proof.
  intros Hn. unfold processCharacter. cbn.
  assert (Hf : isNumericMode d = false).
  { destruct (isNumericMode d) eqn:E; [exfalso; apply Hn; now left|easy]. }
  rewrite bool_decide_eq_false_2, Hf by (intros H; apply Hn; now right).
  cbn. now rewrite normalLookup_isNumericMode.
Qed.

Lemma forEachCell_snoc f cells k d :
  forEachCell f (cells ++ [k]) d = f k (forEachCell f cells d).
Proof. unfold forEachCell. now rewrite fold_left_app. Qed.

Lemma forEachCell_unifiedData cells d :
  unifiedData (forEachCell (processCharacter toUpperCase) cells d)
  = unifiedData d.
Proof.
  induction cells as [|k cells IH] using rev_ind; [reflexivity|].
  now rewrite forEachCell_snoc, processCharacter_unifiedData.
Qed.

(** A run of characters that all resolve in the numeric table keeps the
    continuation armed, and sets the flag as soon as the run is non-empty. *)
Lemma numeric_run_stays_armed cells d :
  numericArmed d ->
  Forall (fun k => resolvesNumeric (unifiedData d) k = true) cells ->
  numericArmed (forEachCell (processCharacter toUpperCase) cells d)
  /\ (cells <> [] ->
      isNumericMode (forEachCell (processCharacter toUpperCase) cells d) = true).
Proof.
  intros Harmed. induction cells as [|k cells IH] using rev_ind; intros Hall.
  - split; [exact Harmed|congruence].
  - apply Forall_app in Hall as [Hcells Hk].
    apply Forall_inv in Hk. destruct (IH Hcells) as [IHa _].
    rewrite forEachCell_snoc.
    assert (E : isNumericMode
                  (processCharacter toUpperCase k
                     (forEachCell (processCharacter toUpperCase) cells d))
                = true).
    { rewrite (processCharacter_armed _ _ IHa), forEachCell_unifiedData.
      exact Hk. }
    split; [now left|intros _; exact E].
Qed.

(** A matched numeric indicator arms the continuation. *)
Lemma applyIndicator_numeric_arms indicator d :
  modifier indicator = Some numeric ->
  isNumericMode (applyIndicator indicator d) = true.
Proof.
  intros H. unfold applyIndicator.
  now rewrite bool_decide_eq_true_2 by exact H.
Qed.

(** C4: once the numeric continuation is armed (a matched numeric indicator
    sets the flag), a character processed at the character stage leaves
    [isNumericMode] true exactly when its key resolves in the numeric table;
    hence over a run of keys that all resolve the flag stays true, and the
    first key after the run that does not resolve clears it; a chord that
    contains dot 0 (a space) always leaves the flag cleared. *)
Theorem numeric_continuation :
  (forall indicator d,
     modifier indicator = Some numeric ->
     numericArmed (applyIndicator indicator d))
  /\ (forall k d,
        numericArmed d ->
        isNumericMode (processCharacter toUpperCase k d)
        = resolvesNumeric (unifiedData d) k)
  /\ (forall cells k d,
        numericArmed d ->
        Forall (fun c => resolvesNumeric (unifiedData d) c = true) cells ->
        resolvesNumeric (unifiedData d) k = false ->
        let d1 := forEachCell (processCharacter toUpperCase) cells d in
        (cells <> [] -> isNumericMode d1 = true)
        /\ isNumericMode (processCharacter toUpperCase k d1) = false)
  /\ (forall chord d,
        In 0 chord ->
        isNumericMode (handleChord toUpperCase chord d) = false).
Proof.
  split; [|split; [|split]].
  - intros indicator d H. left. now apply applyIndicator_numeric_arms.
  - intros k d H. now apply processCharacter_armed.
  - intros cells k d Harmed Hall Hk. cbv zeta.
    destruct (numeric_run_stays_armed cells d Harmed Hall) as [Ha Ht].
    split; [exact Ht|].
    rewrite (processCharacter_armed _ _ Ha), forEachCell_unifiedData.
    exact Hk.
  - intros chord d Hin. unfold handleChord.
    replace (existsb (Nat.eqb 0) chord) with true; [reflexivity|].
    symmetry. apply existsb_exists. exists 0. split; [exact Hin|reflexivity].
Qed.

Lemma onCharacterEmitted_pendingModifier s :
  StateMachine.pendingModifier (StateMachine.onCharacterEmitted s)
  = StateMachine.pendingModifier s.
Proof.
  unfold StateMachine.onCharacterEmitted.
  destruct (bool_decide _); [|reflexivity].
  destruct (1 <=? _); [|reflexivity].
  now rewrite StateMachineFacts.returnToBase_pendingModifier.
Qed.

(** C10: emitting a matched multi-cell entry consumes the pending modifier
    (none is pending afterwards), asks the editor for one insertion of the
    entry's print, upper-cased when the consumed modifier was capital, under
    the entry's multi-cell key, applies [onCharacterEmitted] once to the
    state machine, and leaves [isNumericMode] false whatever it was; the
    matchers and the bracket toggle are untouched. *)
Theorem emitMultiCellMatch_effects (entry : MultiCellEntry) (d : Driver) :
  let consumed := StateMachine.pendingModifier (stateMachine d) in
  let d' := emitMultiCellMatch toUpperCase entry d in
  stateMachine d'
  = StateMachine.onCharacterEmitted
      (snd (StateMachine.consumeModifier (stateMachine d)))
  /\ StateMachine.pendingModifier (stateMachine d') = None
  /\ editorOutput d'
     = editorOutput d
         ++ [Insert (if bool_decide (consumed = Some capital)
                     then toUpperCase (mc_print entry) else mc_print entry)
                    (mc_dotsKey entry)]
  /\ isNumericMode d' = false
  /\ kanaBracketOpen d' = kanaBracketOpen d
  /\ indicatorMatcher d' = indicatorMatcher d
  /\ multiCellMatcher d' = multiCellMatcher d.
Proof.
  cbv zeta. unfold emitMultiCellMatch. cbn.
  repeat split. now rewrite onCharacterEmitted_pendingModifier.
Qed.






(** A character that is not the kana bracket leaves the toggle alone. *)
Lemma processCharacter_keeps_toggle k d :
  StateMachine.getMode (stateMachine d) <> kana \/ k <> "36"%string ->
  kanaBracketOpen (processCharacter toUpperCase k d) = kanaBracketOpen d.
Proof.
  intros Hne.
  assert (Hc : bool_decide (StateMachine.getMode (stateMachine d) = kana)
               && String.eqb k "36" = false).
  { apply andb_false_iff. destruct Hne as [H|H].
    - left. now apply bool_decide_eq_false_2.
    - right. now apply String.eqb_neq. }
  unfold processCharacter, normalLookup. cbn. rewrite Hc.
  destruct (bool_decide _ || isNumericMode d);
    [destruct (DotMapper.lookupNumeric _ _)|]; cbn;
    try destruct (DotMapper.lookup _ _ _); reflexivity.
Qed.



End DriverFacts.

(** ** The driver on concrete tables *)

Module Scenarios.

Definition rawEntry (cat subcat r : string) (p : jsstring) (ds : list string)
    (tg : list string) (i : string) : RawBrailleEntry :=
  {| category := cat; subcategory := subcat; role := r; print := Some p;
     dots := ds; tags := tg; id := i |}.

(** A small UEB profile: the letters a, b, c, the digits 1, 2, 3 on the same
    cells, and the capital and numeric indicators. *)
Definition uebProfile : RawBrailleProfile :=
  {| braille_type := "grade1";
     profile_entries :=
       [ rawEntry "alphabet" "letter" "letter" [97%N] ["1"%string] [] "ueb_a";
         rawEntry "alphabet" "letter" "letter" [98%N] ["12"%string] [] "ueb_b";
         rawEntry "alphabet" "letter" "letter" [99%N] ["14"%string] [] "ueb_c";
         rawEntry "number" "digit" "numbers" [49%N] ["1"%string] [] "ueb_1";
         rawEntry "number" "digit" "numbers" [50%N] ["12"%string] [] "ueb_2";
         rawEntry "number" "digit" "numbers" [51%N] ["14"%string] [] "ueb_3";
         rawEntry "punctuation" "parenthesis" "open" [40%N]
                  ["5"%string; "126"%string] [] "ueb_left_paren";
         rawEntry "indicator" "capital" "indicator" [] ["6"%string] []
                  "ueb_capital";
         rawEntry "indicator" "numeric" "indicator" [] ["3456"%string] []
                  "ueb_numeric" ] |}.

(** A small kana profile: the bracket on dots 36. *)
Definition kanaProfile : RawBrailleProfile :=
  {| braille_type := "kana";
     profile_entries :=
       [ rawEntry "punctuation" "bracket" "open" kanaOpen ["36"%string] []
                  "kana_bracket" ] |}.

Definition tables : UnifiedData :=
  buildUnifiedData [("ueb"%string, [uebProfile]); ("kana"%string, [kanaProfile])].

Definition run (chords : list (list nat)) (d : Driver) : Driver :=
  fold_left (fun d chord => handleChord asciiUpper chord d) chords d.

(** Scenario 2 of the specification: capital indicator, then "a". *)
Example capital_a :
  editorOutput (run [[6]; [1]] (activate tables)) = [Insert [65%N] "1"].
Proof. vm_compute. reflexivity. Qed.

(** Scenario 5: the two-cell opening parenthesis. *)
Example left_parenthesis :
  editorOutput (run [[5]; [1; 2; 6]] (activate tables))
  = [Insert [40%N] "5|126"].
Proof. vm_compute. reflexivity. Qed.

(** A multi-cell match ends the numeric continuation: after the
    parenthesis, dots 1 is the letter again. *)
Example parenthesis_ends_numeric :
  editorOutput
    (run [[3; 4; 5; 6]; [1]; [5]; [1; 2; 6]; [1]] (activate tables))
  = [Insert [49%N] "1"; Insert [40%N] "5|126"; Insert [97%N] "1"].
Proof. vm_compute. reflexivity. Qed.

(** Scenarios 3 and 4: numeric indicator, the digits, a space, a letter. *)
Example numeric_123_space_a :
  editorOutput
    (run [[3; 4; 5; 6]; [1]; [2; 1]; [1; 4]; [0]; [1]] (activate tables))
  = [Insert [49%N] "1"; Insert [50%N] "12"; Insert [51%N] "14"; InsertSpace;
     Insert [97%N] "1"].
Proof. vm_compute. reflexivity. Qed.

(** The kana passage indicator, dots 16 then 13, as a profile gives it. *)
Definition kanaIndicatorEntry : RawBrailleEntry :=
  rawEntry "indicator" "kana" "indicator" [] ["16"%string; "13"%string]
           ["kana"%string; "passage"%string] "kana_passage_indicator".

(** A kana profile with the indicator and the bracket on dots 36, and one
    with the indicator only. *)
Definition kanaPassageProfile : RawBrailleProfile :=
  {| braille_type := "kana";
     profile_entries :=
       [ kanaIndicatorEntry;
         rawEntry "punctuation" "bracket" "open" kanaOpen ["36"%string] []
                  "kana_bracket" ] |}.



(** Tables with the kana bracket; tables in which no profile has an entry
    for dots 36; tables with the kana bracket and a digit on dots 36. *)
Definition kanaTables : UnifiedData :=
  buildUnifiedData
    [("ueb"%string, [uebProfile]); ("kana"%string, [kanaPassageProfile])].



(** The chords of the kana indicator, and of the numeric indicator. *)
Definition kanaChords : list (list nat) := [[1; 6]; [1; 3]].

(** Two successive brackets in a kana passage: open, then close. *)
Example kana_brackets_alternate :
  editorOutput (run (kanaChords ++ [[3; 6]; [3; 6]]) (activate kanaTables))
  = [Insert kanaOpen "36"; Insert kanaClose "36"].
Proof. vm_compute. reflexivity. Qed.




End Scenarios.

(** * Further properties of the engine *)

From stdpp Require sorting.

(** ** Mode state machine: scopes, reachable states, the callback *)

Module StateMachineScopes.
Import StateMachine.

(** The calls a client can make on the machine. *)
Inductive Call :=
| CallIndicator (indicator : IndicatorDef)
| CallConsumeModifier
| CallCharacterEmitted
| CallSpace
| CallReset
| CallSetCallback.

Definition perform (c : Call) (s : t) : t :=
  match c with
  | CallIndicator indicator => snd (processIndicator indicator s)
  | CallConsumeModifier => snd (consumeModifier s)
  | CallCharacterEmitted => onCharacterEmitted s
  | CallSpace => onSpace s
  | CallReset => reset s
  | CallSetCallback => setModeChangeCallback s
  end.

Definition performAll (cs : list Call) (s : t) : t :=
  fold_left (fun s c => perform c s) cs s.

(** An active scope always has a pushed mode under it. *)
Definition scopeHasFrame (s : t) : Prop :=
  activeScope s <> None -> modeStack s <> [].

Definition isEmission (c : Call) : bool :=
  match c with
  | CallCharacterEmitted | CallSpace | CallConsumeModifier => true
  | _ => false
  end.

Definition isCharacter (c : Call) : bool :=
  match c with
  | CallCharacterEmitted | CallConsumeModifier => true
  | _ => false
  end.

Lemma enterMode_effect (I : IndicatorDef) (s : t) :
  ~ (currentMode s = targetMode I /\ activeScope s = Some (scope I)) ->
  enterMode I s
  = (true,
     {| currentMode := targetMode I;
        modeStack := modeStack s ++ [currentMode s];
        activeScope := Some (scope I); symbolCount := 0;
        pendingModifier := pendingModifier s;
        onModeChange := onModeChange s;
        callbackLog :=
          if onModeChange s
          then callbackLog s
                 ++ [mkModeChange (currentMode s) (targetMode I) I]
          else callbackLog s |}).
Proof.
  intros Hn. unfold enterMode.
  destruct (decide (currentMode s = targetMode I)) as [Hm|Hm];
    [destruct (decide (activeScope s = Some (scope I))) as [Hs|Hs]|].
  - tauto.
  - rewrite (bool_decide_eq_false_2 (activeScope s = _)) by assumption.
    now rewrite andb_false_r.
  - now rewrite (bool_decide_eq_false_2 (currentMode s = _)) by assumption.
Qed.

Lemma returnToBase_after_push (s0 : t) (st : list Mode) (top : Mode) :
  modeStack s0 = st ++ [top] ->
  currentMode (returnToBase s0) = top /\ modeStack (returnToBase s0) = st.
Proof.
  intros H. pose proof (StateMachineFacts.returnToBase_pop s0) as Hp.
  rewrite H, StateMachineFacts.popOrBase_snoc in Hp. now inversion Hp.
Qed.

(** X1: a symbol scope lasts one character: after a mode-switch enter with scope
    symbol that is not a no-op, the machine is in the target mode; a space
    changes nothing; the first emitted character brings back the mode and
    the stack held before the enter, with no scope active, and keeps the
    pending modifier. *)
Theorem symbol_scope_lasts_one_character (I : IndicatorDef) (s : t) :
  indicatorType I = mode_switch -> action I = enter -> scope I = symbol ->
  ~ (currentMode s = targetMode I /\ activeScope s = Some symbol) ->
  let s1 := snd (processIndicator I s) in
  currentMode s1 = targetMode I
  /\ activeScope s1 = Some symbol
  /\ onSpace s1 = s1
  /\ currentMode (onCharacterEmitted s1) = currentMode s
  /\ modeStack (onCharacterEmitted s1) = modeStack s
  /\ activeScope (onCharacterEmitted s1) = None
  /\ pendingModifier (onCharacterEmitted s1) = pendingModifier s.
Proof.
  intros HI1 HI2 HI3 Hn. cbv zeta.
  unfold processIndicator. rewrite HI1, HI2.
  rewrite enterMode_effect by (now rewrite HI3). cbn [snd].
  rewrite HI3. split; [reflexivity|]. split; [reflexivity|].
  split; [reflexivity|].
  unfold onCharacterEmitted. cbn [activeScope symbolCount Nat.leb].
  rewrite bool_decide_eq_true_2 by reflexivity.
  match goal with |- context [returnToBase ?x] => set (s0 := x) end.
  destruct (returnToBase_after_push s0 (modeStack s) (currentMode s) eq_refl)
    as [Hm Hst].
  rewrite Hm, Hst, StateMachineFacts.returnToBase_scope,
    StateMachineFacts.returnToBase_pendingModifier. auto.
Qed.

Lemma symbol_scope_lasts_one_character_witness :
  let s1 := snd (processIndicator (StateMachineFacts.enterInd kana symbol)
                                  (new grade1)) in
  currentMode s1 = kana
  /\ activeScope s1 = Some symbol
  /\ onSpace s1 = s1
  /\ currentMode (onCharacterEmitted s1) = grade1
  /\ modeStack (onCharacterEmitted s1) = []
  /\ activeScope (onCharacterEmitted s1) = None
  /\ pendingModifier (onCharacterEmitted s1) = None.
Proof.
  apply (symbol_scope_lasts_one_character
           (StateMachineFacts.enterInd kana symbol) (new grade1));
    try reflexivity.
  intros [_ H]. discriminate H.
Defined.

Lemma performAll_snoc (cs : list Call) (c : Call) (s : t) :
  performAll (cs ++ [c]) s = perform c (performAll cs s).
Proof. unfold performAll. now rewrite fold_left_app. Qed.

(** X2: a word scope lasts until the next space: after a mode-switch enter with
    scope word that is not a no-op, any number of emitted characters and
    consumed modifiers leave mode, stack and scope as they are, and the
    space that follows brings back the mode and the stack held before the
    enter, with no scope active. *)
Theorem word_scope_lasts_until_space
    (I : IndicatorDef) (s : t) (cs : list Call) :
  indicatorType I = mode_switch -> action I = enter -> scope I = word ->
  ~ (currentMode s = targetMode I /\ activeScope s = Some word) ->
  forallb isCharacter cs = true ->
  let s1 := performAll cs (snd (processIndicator I s)) in
  currentMode s1 = targetMode I
  /\ activeScope s1 = Some word
  /\ modeStack s1 = modeStack s ++ [currentMode s]
  /\ currentMode (onSpace s1) = currentMode s
  /\ modeStack (onSpace s1) = modeStack s
  /\ activeScope (onSpace s1) = None.
Proof.
  intros HI1 HI2 HI3 Hn Hcs. cbv zeta.
  unfold processIndicator. rewrite HI1, HI2.
  rewrite enterMode_effect by (now rewrite HI3). cbn [snd].
  rewrite HI3.
  match goal with |- context [performAll cs ?x] => set (s0 := x) end.
  assert (Hinv : currentMode (performAll cs s0) = targetMode I
                 /\ activeScope (performAll cs s0) = Some word
                 /\ modeStack (performAll cs s0)
                    = modeStack s ++ [currentMode s]).
  { clear Hn. induction cs as [|c cs IH] using rev_ind; [now cbn|].
    rewrite forallb_app in Hcs. apply andb_true_iff in Hcs as [Hcs Hc].
    cbn in Hc. rewrite andb_true_r in Hc.
    destruct (IH Hcs) as (Hm & Hsc & Hst). rewrite performAll_snoc.
    destruct c; try discriminate Hc; cbn [perform].
    - now cbn.
    - unfold onCharacterEmitted. rewrite Hsc.
      rewrite bool_decide_eq_false_2 by discriminate. auto. }
  destruct Hinv as (Hm & Hsc & Hst).
  split; [exact Hm|]. split; [exact Hsc|]. split; [exact Hst|].
  unfold onSpace. rewrite Hsc, bool_decide_eq_true_2 by reflexivity.
  destruct (returnToBase_after_push _ _ _ Hst) as [Hm' Hst'].
  now rewrite Hm', Hst', StateMachineFacts.returnToBase_scope.
Qed.

Lemma word_scope_lasts_until_space_witness :
  let s1 := performAll [CallCharacterEmitted; CallCharacterEmitted]
              (snd (processIndicator (StateMachineFacts.enterInd kana word)
                                     (new grade1))) in
  currentMode s1 = kana
  /\ activeScope s1 = Some word
  /\ modeStack s1 = [] ++ [grade1]
  /\ currentMode (onSpace s1) = grade1
  /\ modeStack (onSpace s1) = []
  /\ activeScope (onSpace s1) = None.
Proof.
  apply (word_scope_lasts_until_space
           (StateMachineFacts.enterInd kana word) (new grade1)
           [CallCharacterEmitted; CallCharacterEmitted]);
    try reflexivity.
  intros [_ H]. discriminate H.
Defined.

(** X3: a passage scope lasts until an explicit exit: with scope passage active
    (or with no scope active), emitted characters, spaces and consumed
    modifiers never change the mode, the stack or the scope. *)
Theorem passage_scope_is_stable (s : t) (cs : list Call) :
  activeScope s = Some passage \/ activeScope s = None ->
  forallb isEmission cs = true ->
  currentMode (performAll cs s) = currentMode s
  /\ modeStack (performAll cs s) = modeStack s
  /\ activeScope (performAll cs s) = activeScope s
  /\ callbackLog (performAll cs s) = callbackLog s.
Proof.
  intros Hsc Hcs. induction cs as [|c cs IH] using rev_ind; [now cbn|].
  rewrite forallb_app in Hcs. apply andb_true_iff in Hcs as [Hcs Hc].
  cbn in Hc. rewrite andb_true_r in Hc.
  destruct (IH Hcs) as (Hm & Hst & Hs & Hl). rewrite performAll_snoc.
  assert (Hns : activeScope (performAll cs s) <> Some symbol)
    by (rewrite Hs; destruct Hsc as [-> | ->]; discriminate).
  assert (Hnw : activeScope (performAll cs s) <> Some word)
    by (rewrite Hs; destruct Hsc as [-> | ->]; discriminate).
  destruct c; try discriminate Hc; cbn [perform].
  - now cbn.
  - unfold onCharacterEmitted. now rewrite bool_decide_eq_false_2.
  - unfold onSpace. now rewrite bool_decide_eq_false_2.
Qed.

Lemma passage_scope_is_stable_witness :
  let s := StateMachineFacts.inKanaPassage in
  let cs := [CallCharacterEmitted; CallSpace; CallCharacterEmitted] in
  currentMode (performAll cs s) = currentMode s
  /\ modeStack (performAll cs s) = modeStack s
  /\ activeScope (performAll cs s) = activeScope s
  /\ callbackLog (performAll cs s) = callbackLog s.
Proof.
  apply (passage_scope_is_stable StateMachineFacts.inKanaPassage
           [CallCharacterEmitted; CallSpace; CallCharacterEmitted]).
  - left. reflexivity.
  - reflexivity.
Defined.

Lemma returnToBase_scopeHasFrame (s : t) : scopeHasFrame (returnToBase s).
Proof.
  unfold scopeHasFrame. now rewrite StateMachineFacts.returnToBase_scope.
Qed.

Lemma perform_scopeHasFrame (c : Call) (s : t) :
  scopeHasFrame s -> scopeHasFrame (perform c s).
Proof.
  intros Hinv. destruct c; cbn [perform].
  - unfold processIndicator.
    destruct (indicatorType indicator);
      [destruct (action indicator)|
       destruct (action indicator), (modifier indicator)];
      try exact Hinv.
    + unfold enterMode. destruct (_ && _); [exact Hinv|].
      intros _. cbn. now destruct (modeStack s).
    + unfold exitMode. destruct (_ && _); [exact Hinv|].
      apply returnToBase_scopeHasFrame.
  - exact Hinv.
  - unfold onCharacterEmitted. destruct (bool_decide _); [|exact Hinv].
    destruct (1 <=? _); [apply returnToBase_scopeHasFrame|].
    exact Hinv.
  - unfold onSpace. destruct (bool_decide _); [|exact Hinv].
    apply returnToBase_scopeHasFrame.
  - intros H. now cbn in H.
  - exact Hinv.
Qed.

(** X4: in every state reached from a new machine, whatever its initial mode and
    whatever is called on it, an active scope has a pushed mode under it:
    the mode stack is non-empty whenever a scope is active. Hence ending a
    scope always restores a mode that an enter pushed, never the grade1
    default of an empty stack. *)
Theorem active_scope_has_pushed_mode (initialMode : Mode) (cs : list Call) :
  let s := performAll cs (new initialMode) in
  (activeScope s <> None -> modeStack s <> [])
  /\ (forall sc, activeScope s = Some sc ->
        exists st top,
          modeStack s = st ++ [top]
          /\ currentMode (returnToBase s) = top
          /\ modeStack (returnToBase s) = st).
Proof.
  cbv zeta.
  assert (Hinv : scopeHasFrame (performAll cs (new initialMode))).
  { induction cs as [|c cs IH] using rev_ind.
    - intros H. now cbn in H.
    - rewrite performAll_snoc. now apply perform_scopeHasFrame. }
  split; [exact Hinv|].
  intros sc Hsc.
  assert (Hne : modeStack (performAll cs (new initialMode)) <> [])
    by (apply Hinv; rewrite Hsc; discriminate).
  destruct (modeStack (performAll cs (new initialMode)))
    as [|top st _] eqn:E using rev_ind; [congruence|].
  exists st, top. split; [reflexivity|].
  now apply returnToBase_after_push.
Qed.

Definition exitOnce (X : IndicatorDef) (s : t) : t :=
  snd (processIndicator X s).

Lemma exit_drains_aux (X : IndicatorDef) :
  indicatorType X = mode_switch -> action X = exit ->
  forall (n : nat) (s : t),
    length (modeStack s) = n ->
    currentMode (Nat.iter (S n) (exitOnce X) s) = grade1
    /\ modeStack (Nat.iter (S n) (exitOnce X) s) = [].
Proof.
  intros HX1 HX2. induction n as [|n IH]; intros s Hlen.
  - change (Nat.iter 1 (exitOnce X) s) with (exitOnce X s).
    unfold exitOnce, processIndicator.
    rewrite HX1, HX2. unfold exitMode.
    destruct (modeStack s) as [|a st] eqn:Hst; [|discriminate].
    destruct (decide (currentMode s = grade1)) as [Hm|Hm].
    + rewrite !bool_decide_eq_true_2 by (rewrite ?Hst; auto). cbn. auto.
    + rewrite (bool_decide_eq_false_2 (currentMode s = grade1)) by assumption.
      cbn [andb snd].
      pose proof (StateMachineFacts.returnToBase_pop s) as Hp.
      rewrite Hst in Hp. cbn in Hp. now inversion Hp.
  - rewrite Nat.iter_succ_r. apply IH.
    unfold exitOnce, processIndicator. rewrite HX1, HX2. unfold exitMode.
    rewrite (bool_decide_eq_false_2 (length (modeStack s) = 0))
      by (rewrite Hlen; discriminate).
    rewrite andb_false_r. cbn [snd].
    pose proof (StateMachineFacts.returnToBase_pop s) as Hp.
    apply (f_equal snd) in Hp. cbn [snd] in Hp. rewrite Hp.
    rewrite StateMachineFacts.popOrBase_length, Hlen. reflexivity.
Qed.

(** X5: exits always lead back to the base: from any state, one exit per pushed
    mode and one more leave the machine in grade1 with an empty stack,
    whatever the modes on the stack and the initial mode were. *)
Theorem exits_drain_to_base (X : IndicatorDef) (s : t) :
  indicatorType X = mode_switch -> action X = exit ->
  let s' := Nat.iter (S (length (modeStack s))) (exitOnce X) s in
  currentMode s' = grade1
  /\ modeStack s' = []
  /\ fst (processIndicator X s') = false
  /\ snd (processIndicator X s') = s'.
Proof.
  intros HX1 HX2. cbv zeta.
  destruct (exit_drains_aux X HX1 HX2 (length (modeStack s)) s eq_refl)
    as [Hm Hst].
  split; [exact Hm|]. split; [exact Hst|].
  unfold processIndicator. rewrite HX1, HX2. unfold exitMode.
  rewrite Hm, Hst. cbn. auto.
Qed.

Lemma exits_drain_to_base_witness :
  let s := snd (processIndicator (StateMachineFacts.enterInd nemeth word)
                                 StateMachineFacts.inKanaPassage) in
  let s' := Nat.iter 3 (exitOnce (StateMachineFacts.exitInd kana)) s in
  currentMode s' = grade1
  /\ modeStack s' = []
  /\ fst (processIndicator (StateMachineFacts.exitInd kana) s') = false
  /\ snd (processIndicator (StateMachineFacts.exitInd kana) s') = s'.
Proof.
  apply (exits_drain_to_base (StateMachineFacts.exitInd kana)
           (snd (processIndicator (StateMachineFacts.enterInd nemeth word)
                                  StateMachineFacts.inKanaPassage)));
    reflexivity.
Defined.

(** X6: a modifier indicator never switches modes: it returns true and leaves
    mode, stack, scope, symbol count and callback log as they are. An enter
    that carries a modifier makes it pending, every other modifier indicator
    clears the pending modifier; [consumeModifier] hands the pending
    modifier out once, and a second call finds none. *)
Theorem modifier_indicator_round_trip (I : IndicatorDef) (s : t) :
  indicatorType I = modifier_type ->
  let r := fst (processIndicator I s) in
  let s1 := snd (processIndicator I s) in
  r = true
  /\ currentMode s1 = currentMode s
  /\ modeStack s1 = modeStack s
  /\ activeScope s1 = activeScope s
  /\ symbolCount s1 = symbolCount s
  /\ callbackLog s1 = callbackLog s
  /\ pendingModifier s1
     = match action I with enter => modifier I | exit => None end
  /\ fst (consumeModifier s1) = pendingModifier s1
  /\ fst (consumeModifier (snd (consumeModifier s1))) = None
  /\ hasPendingModifier (snd (consumeModifier s1)) = false.
Proof.
  intros HI. cbv zeta. unfold processIndicator. rewrite HI.
  destruct (action I), (modifier I); cbn; repeat split; reflexivity.
Qed.

Lemma modifier_indicator_round_trip_witness :
  let I := MatcherFacts.capitalInd in
  let s1 := snd (processIndicator I (new grade1)) in
  fst (processIndicator I (new grade1)) = true
  /\ currentMode s1 = grade1
  /\ modeStack s1 = []
  /\ activeScope s1 = None
  /\ symbolCount s1 = 0
  /\ callbackLog s1 = []
  /\ pendingModifier s1 = Some capital
  /\ fst (consumeModifier s1) = pendingModifier s1
  /\ fst (consumeModifier (snd (consumeModifier s1))) = None
  /\ hasPendingModifier (snd (consumeModifier s1)) = false.
Proof.
  apply (modifier_indicator_round_trip MatcherFacts.capitalInd (new grade1)).
  reflexivity.
Defined.

Lemma returnToBase_log_step (s : t) :
  exists l,
    callbackLog (returnToBase s) = callbackLog s ++ l
    /\ length l <= 1
    /\ (onModeChange s = false -> l = [])
    /\ (forall c, In c l ->
          oldMode c = currentMode s
          /\ newMode c = currentMode (returnToBase s)
          /\ oldMode c <> newMode c).
Proof.
  rewrite StateMachineFacts.returnToBase_log.
  destruct (onModeChange s); cbn [andb].
  - destruct (decide (currentMode s = currentMode (returnToBase s))) as [E|E].
    + rewrite bool_decide_eq_true_2 by exact E. cbn.
      exists []. rewrite app_nil_r.
      split; [reflexivity|]. split; [cbn; lia|]. split; [reflexivity|].
      intros c [].
    + rewrite bool_decide_eq_false_2 by exact E. cbn.
      eexists. split; [reflexivity|]. split; [cbn; lia|].
      split; [discriminate|].
      intros c [<-|[]]. cbn. auto.
  - exists []. rewrite app_nil_r.
    split; [reflexivity|]. split; [cbn; lia|]. split; [reflexivity|].
    intros c [].
Qed.

(** X7: the mode-change callback: no call on the machine invokes it more than
    once, none invokes it when no callback is registered, and every
    invocation reports the mode that was current before the call and the mode
    that is current after it. Only [setModeChangeCallback] registers a
    callback and nothing unregisters it. *)
Theorem callback_reports_each_transition (c : Call) (s : t) :
  exists l,
    callbackLog (perform c s) = callbackLog s ++ l
    /\ length l <= 1
    /\ (onModeChange s = false -> l = [])
    /\ (forall x, In x l ->
          oldMode x = currentMode s /\ newMode x = currentMode (perform c s))
    /\ (onModeChange s = true -> onModeChange (perform c s) = true).
Proof.
  assert (Hsame : forall s', callbackLog s' = callbackLog s ->
            onModeChange s' = onModeChange s \/ onModeChange s' = true ->
            exists l, callbackLog s' = callbackLog s ++ l /\ length l <= 1
              /\ (onModeChange s = false -> l = [])
              /\ (forall x, In x l ->
                    oldMode x = currentMode s /\ newMode x = currentMode s')
              /\ (onModeChange s = true -> onModeChange s' = true)).
  { intros s' Hl Hcb. exists []. rewrite app_nil_r.
    split; [exact Hl|]. split; [cbn; lia|]. split; [reflexivity|].
    split; [intros x []|].
    destruct Hcb as [-> | ->]; auto. }
  assert (Hret : exists l,
            callbackLog (returnToBase s) = callbackLog s ++ l
            /\ length l <= 1
            /\ (onModeChange s = false -> l = [])
            /\ (forall x, In x l ->
                  oldMode x = currentMode s
                  /\ newMode x = currentMode (returnToBase s))
            /\ (onModeChange s = true -> onModeChange (returnToBase s) = true)).
  { destruct (returnToBase_log_step s) as (l & H1 & H2 & H3 & H4).
    exists l. split; [exact H1|]. split; [exact H2|]. split; [exact H3|].
    split; [intros x Hx; destruct (H4 x Hx) as (? & ? & _); auto|].
    unfold returnToBase. now destruct (popOrBase (modeStack s)). }
  destruct c; cbn [perform].
  - unfold processIndicator.
    destruct (indicatorType indicator);
      [destruct (action indicator)|
       destruct (action indicator), (modifier indicator)];
      try (cbn [snd]; apply Hsame; cbn; now auto).
    + unfold enterMode. destruct (_ && _);
        [cbn [snd]; apply Hsame; now auto|].
      cbn [snd callbackLog currentMode onModeChange].
      destruct (onModeChange s).
      * eexists. split; [reflexivity|]. split; [cbn; lia|].
        split; [discriminate|]. split; [|auto].
        intros x [<-|[]]. cbn. auto.
      * exists []. rewrite app_nil_r.
        split; [reflexivity|]. split; [cbn; lia|]. split; [reflexivity|].
        split; [intros x []|discriminate].
    + unfold exitMode. destruct (_ && _);
        [cbn [snd]; apply Hsame; now auto|].
      exact Hret.
  - cbn [snd]. apply Hsame; cbn; now auto.
  - unfold onCharacterEmitted.
    destruct (bool_decide _); [|apply Hsame; now auto].
    cbn [symbolCount Nat.leb]. exact Hret.
  - unfold onSpace. destruct (bool_decide _); [|apply Hsame; now auto].
    exact Hret.
  - apply Hsame; cbn; now auto.
  - apply Hsame; cbn; now auto.
Qed.

End StateMachineScopes.

(** ** Prefix matchers: what a result says about the cells *)

Module MatcherResults.

Lemma recover_result (es : list MultiCellEntry) (cells0 : list string)
    (k : string) (m : MultiCellMatcher.t) :
  fst (MultiCellMatcher.recover es (cells0 ++ [k]) m)
  = match cells0 with
    | [] => MNone [k]
    | _ :: _ =>
        match MultiCellMatcher.findExact es (join "|" cells0) with
        | Some prev => MMatchedWithLeftover prev [k]
        | None => MNone (cells0 ++ [k])
        end
    end.
Proof.
  unfold MultiCellMatcher.recover.
  rewrite removelast_last, MatcherFacts.last_snoc.
  destruct cells0 as [|c cells0]; [reflexivity|].
  replace (1 <? length ((c :: cells0) ++ [k])) with true
    by (symmetry; apply Nat.ltb_lt; rewrite length_app; simpl; lia).
  now destruct (MultiCellMatcher.findExact es (join "|" (c :: cells0))).
Qed.

(** X8: every result of the multi-cell matcher accounts for all the cells: a
    matched entry is an entry of the table, of the current mode or of grade1,
    whose key is the key of the whole buffer; a match with leftover is such
    an entry for the cells buffered before the call, and the leftover is the
    new cell; [none] hands back the whole buffer in order; [pending] means
    that the buffer is shorter than [maxCells] and that some entry of the
    current mode or grade1 has a key that continues the buffer. *)
Theorem multicell_result_accounts_for_cells
    (k : string) (mode : Mode) (m : MultiCellMatcher.t) :
  let cells := MultiCellMatcher.pendingCells m ++ [k] in
  let ok e := In e (MultiCellMatcher.entries m)
              /\ (mc_mode e = mode \/ mc_mode e = grade1) in
  match fst (MultiCellMatcher.tryMatch k mode m) with
  | MMatched e => ok e /\ mc_dotsKey e = join "|" cells
  | MMatchedWithLeftover e leftover =>
      ok e /\ mc_dotsKey e = join "|" (MultiCellMatcher.pendingCells m)
      /\ leftover = [k] /\ MultiCellMatcher.pendingCells m <> []
  | MPending =>
      length cells < MultiCellMatcher.maxCells m
      /\ exists e, ok e
           /\ startsWith (mc_dotsKey e) (join "|" cells +:+ "|") = true
  | MNone buffered => buffered = cells
  end.
Proof.
  cbv zeta.
  assert (Hfind : forall key e,
            MultiCellMatcher.findExact
              (MultiCellMatcher.modeEntries m mode) key = Some e ->
            (In e (MultiCellMatcher.entries m)
             /\ (mc_mode e = mode \/ mc_mode e = grade1))
            /\ mc_dotsKey e = key).
  { intros key e H.
    destruct (MatcherFacts.recovered_entry_matches_prefix mode m key e H)
      as (H1 & H2 & H3). auto. }
  assert (Hlonger : forall key,
            MultiCellMatcher.hasLongerPrefix
              (MultiCellMatcher.modeEntries m mode) key = true ->
            exists e, (In e (MultiCellMatcher.entries m)
                       /\ (mc_mode e = mode \/ mc_mode e = grade1))
                      /\ startsWith (mc_dotsKey e) (key +:+ "|") = true).
  { intros key H. apply existsb_exists in H as (e & Hin & He).
    exists e. split; [|exact He].
    apply filter_In in Hin as [Hin Hmode]. split; [exact Hin|].
    apply orb_true_iff in Hmode as [Hm|Hm];
      apply bool_decide_eq_true in Hm; auto. }
  assert (Hrec :
    match fst (MultiCellMatcher.recover (MultiCellMatcher.modeEntries m mode)
                 (MultiCellMatcher.pendingCells m ++ [k]) m) with
    | MMatched e => False
    | MMatchedWithLeftover e leftover =>
        (In e (MultiCellMatcher.entries m)
         /\ (mc_mode e = mode \/ mc_mode e = grade1))
        /\ mc_dotsKey e = join "|" (MultiCellMatcher.pendingCells m)
        /\ leftover = [k] /\ MultiCellMatcher.pendingCells m <> []
    | MPending => False
    | MNone buffered => buffered = MultiCellMatcher.pendingCells m ++ [k]
    end).
  { rewrite recover_result.
    destruct (MultiCellMatcher.pendingCells m) as [|c cells0] eqn:E;
      [reflexivity|].
    destruct (MultiCellMatcher.findExact _ _) as [p|] eqn:Hp; [|reflexivity].
    destruct (Hfind _ _ Hp) as [Hok Hk].
    repeat split; try apply Hok; auto; discriminate. }
  unfold MultiCellMatcher.tryMatch.
  set (cells := MultiCellMatcher.pendingCells m ++ [k]) in *.
  destruct (MultiCellMatcher.findExact _ (join "|" cells)) as [e|] eqn:He.
  - destruct (MultiCellMatcher.hasLongerPrefix _ _) eqn:Hl; cbn [negb fst].
    + destruct (length cells <? _) eqn:Hlt; cbn [fst].
      * split; [now apply Nat.ltb_lt|]. now apply Hlonger.
      * now apply Hfind.
    + now apply Hfind.
  - destruct (MultiCellMatcher.hasLongerPrefix _ _) eqn:Hl; cbn [andb].
    + destruct (length cells <? _) eqn:Hlt; cbn [fst].
      * split; [now apply Nat.ltb_lt|]. now apply Hlonger.
      * destruct (fst (MultiCellMatcher.recover _ cells m)); tauto.
    + destruct (fst (MultiCellMatcher.recover _ cells m)); tauto.
Qed.

(** X9: every result of the indicator matcher: a matched indicator is an
    indicator of the table whose key is the key of the whole buffer, and no
    indicator continues that key; a match with leftover returns the
    indicator that was deferred, with the new cell as the one leftover;
    [none] hands back the whole buffer in order and is only returned when
    nothing was deferred; [pending] means that some indicator has a key that
    continues the buffer. *)
Theorem indicator_result_is_sound (k : string) (m : IndicatorMatcher.t) :
  let cells := IndicatorMatcher.pendingCells m ++ [k] in
  match fst (IndicatorMatcher.tryMatch k m) with
  | IMatched i =>
      In i (IndicatorMatcher.indicators m)
      /\ ind_dotsKey i = join "|" cells
      /\ (forall j, In j (IndicatorMatcher.indicators m) ->
            startsWith (ind_dotsKey j) (join "|" cells +:+ "|") = false)
  | IMatchedWithLeftover i leftover =>
      IndicatorMatcher.deferredMatch m = Some i /\ leftover = [k]
  | IPending =>
      exists i, In i (IndicatorMatcher.indicators m)
        /\ startsWith (ind_dotsKey i) (join "|" cells +:+ "|") = true
  | INone buffered =>
      buffered = cells /\ IndicatorMatcher.deferredMatch m = None
  end.
Proof.
  cbv zeta. unfold IndicatorMatcher.tryMatch.
  set (cells := IndicatorMatcher.pendingCells m ++ [k]).
  assert (Hlonger :
            IndicatorMatcher.hasLongerPrefix m (join "|" cells) = true ->
            exists i, In i (IndicatorMatcher.indicators m)
              /\ startsWith (ind_dotsKey i) (join "|" cells +:+ "|") = true).
  { intros H. now apply existsb_exists in H. }
  destruct (IndicatorMatcher.findExact m _) as [e|] eqn:He.
  - apply find_some in He as [Hin Hk]. apply String.eqb_eq in Hk.
    destruct (IndicatorMatcher.hasLongerPrefix m _) eqn:Hl; cbn [negb fst].
    + now apply Hlonger.
    + repeat split; auto. intros j Hj.
      unfold IndicatorMatcher.hasLongerPrefix in Hl.
      destruct (startsWith (ind_dotsKey j) _) eqn:E; [|reflexivity].
      rewrite <- Hl. symmetry. apply existsb_exists. eauto.
  - destruct (IndicatorMatcher.hasLongerPrefix m _) eqn:Hl; cbn [andb].
    + destruct (length cells <? _); cbn [fst]; [now apply Hlonger|].
      destruct (IndicatorMatcher.deferredMatch m); cbn [fst].
      * unfold cells. now rewrite MatcherFacts.last_snoc.
      * auto.
    + destruct (IndicatorMatcher.deferredMatch m); cbn [fst].
      * unfold cells. now rewrite MatcherFacts.last_snoc.
      * auto.
Qed.

(** The calls a client can make on the indicator matcher once its table is
    loaded. *)
Inductive MatcherCall :=
| CallTryMatch (dotsKey : string)
| CallFlushPending
| CallReset.

Definition performI (c : MatcherCall) (m : IndicatorMatcher.t)
    : IndicatorMatcher.t :=
  match c with
  | CallTryMatch k => snd (IndicatorMatcher.tryMatch k m)
  | CallFlushPending => snd (IndicatorMatcher.flushPending m)
  | CallReset => IndicatorMatcher.reset m
  end.

Definition performAllI (cs : list MatcherCall) (m : IndicatorMatcher.t)
    : IndicatorMatcher.t :=
  fold_left (fun m c => performI c m) cs m.

(** The deferred indicator, when there is one, is an indicator of the table
    that matched a non-empty initial part of the buffer. *)
Definition deferredIsBuffered (m : IndicatorMatcher.t) : Prop :=
  forall d, IndicatorMatcher.deferredMatch m = Some d ->
    In d (IndicatorMatcher.indicators m)
    /\ exists pre suf,
         IndicatorMatcher.pendingCells m = pre ++ suf
         /\ pre <> []
         /\ ind_dotsKey d = join "|" pre.

Lemma performI_deferredIsBuffered (c : MatcherCall) (m : IndicatorMatcher.t) :
  deferredIsBuffered m -> deferredIsBuffered (performI c m).
Proof.
  intros Hinv. destruct c; cbn [performI];
    [|intros d H; discriminate H|intros d H; discriminate H].
  unfold IndicatorMatcher.tryMatch.
  set (cells := IndicatorMatcher.pendingCells m ++ [dotsKey]).
  destruct (IndicatorMatcher.findExact m _) as [e|] eqn:He.
  - apply find_some in He as [Hin Hk]. apply String.eqb_eq in Hk.
    destruct (negb _); cbn [snd]; intros d H; [discriminate H|].
    cbn in H. inversion H; subst d. split; [exact Hin|].
    exists cells, []. cbn. rewrite app_nil_r.
    repeat split; auto. unfold cells. now destruct (IndicatorMatcher.pendingCells m).
  - destruct (_ && _); cbn [snd].
    + intros d H. cbn in H. destruct (Hinv d H) as (Hin & pre & suf & E & Hne & Hk).
      split; [exact Hin|]. exists pre, (suf ++ [dotsKey]). cbn.
      unfold cells. rewrite E, <- app_assoc. auto.
    + destruct (IndicatorMatcher.deferredMatch m) eqn:Hd; cbn [snd];
        intros d H; cbn in H; [discriminate H|congruence].
Qed.

(** X10: whatever cells are offered and whenever the matcher is flushed or reset,
    a deferred indicator is held only over a non-empty buffer: it is an
    indicator of the loaded table, and its key is the key of a non-empty
    initial part of the buffered cells. *)
Theorem deferred_match_is_buffered
    (inds : list IndicatorDef) (cs : list MatcherCall) :
  let m := performAllI cs (IndicatorMatcher.setIndicators
                             inds IndicatorMatcher.new) in
  forall d, IndicatorMatcher.deferredMatch m = Some d ->
    In d inds
    /\ IndicatorMatcher.hasPending m = true
    /\ exists pre suf,
         IndicatorMatcher.pendingCells m = pre ++ suf
         /\ pre <> []
         /\ ind_dotsKey d = join "|" pre.
Proof.
  cbv zeta.
  set (m0 := IndicatorMatcher.setIndicators inds IndicatorMatcher.new).
  assert (Hinv : deferredIsBuffered (performAllI cs m0)
                 /\ IndicatorMatcher.indicators (performAllI cs m0) = inds).
  { induction cs as [|c cs IH] using rev_ind.
    - split; [intros d H; discriminate H|reflexivity].
    - unfold performAllI in *. rewrite fold_left_app. cbn [fold_left].
      destruct IH as [IH1 IH2]. split.
      + now apply performI_deferredIsBuffered.
      + rewrite <- IH2. destruct c; cbn [performI]; try reflexivity.
        unfold IndicatorMatcher.tryMatch.
        destruct (IndicatorMatcher.findExact _ _);
          [destruct (negb _)
          |destruct (_ && _);
             [|destruct (IndicatorMatcher.deferredMatch _)]];
          reflexivity. }
  destruct Hinv as [Hinv Hinds]. intros d Hd.
  destruct (Hinv d Hd) as (Hin & pre & suf & E & Hne & Hk).
  split; [now rewrite <- Hinds|]. split; [|eauto].
  unfold IndicatorMatcher.hasPending. rewrite E.
  destruct pre; [congruence|reflexivity].
Qed.

End MatcherResults.

(** ** The format of dot keys *)

Module KeyFormat.
Import Stdlib.Sorting.Sorted.

(** Order of characters by code, the order [sort_chars] sorts by. *)
Definition char_le (a b : ascii) : Prop := nat_of_ascii a <= nat_of_ascii b.

#[local] Instance char_le_trans : Transitive char_le.
Proof. intros a b c. unfold char_le. lia. Qed.

#[local] Instance char_le_antisymm : AntiSymm (=) char_le.
Proof.
  intros a b H1 H2. unfold char_le in *.
  rewrite <- (ascii_nat_embedding a), <- (ascii_nat_embedding b).
  f_equal. lia.
Qed.

(** Number of separators [|] in a key. *)
Definition sepCount (cs : list ascii) : nat :=
  length (List.filter (fun c => Ascii.eqb c "|") cs).

Definition count_sep (s : string) : nat := sepCount (list_ascii_of_string s).

Definition sameDots (d d' : string) : Prop :=
  list_ascii_of_string d ≡ₚ list_ascii_of_string d'.

Lemma insert_char_perm (c : ascii) (cs : list ascii) :
  insert_char c cs ≡ₚ c :: cs.
Proof.
  induction cs as [|d cs IH]; [reflexivity|]. simpl.
  destruct (_ <=? _); [reflexivity|].
  rewrite IH. apply perm_swap.
Qed.

Lemma sort_list_perm (cs : list ascii) :
  fold_right insert_char [] cs ≡ₚ cs.
Proof.
  induction cs as [|c cs IH]; [reflexivity|]. simpl.
  now rewrite insert_char_perm, IH.
Qed.

Lemma insert_char_sorted (c : ascii) (cs : list ascii) :
  Sorted char_le cs -> Sorted char_le (insert_char c cs).
Proof.
  induction cs as [|d cs IH]; intros Hs; simpl.
  - repeat constructor.
  - destruct (nat_of_ascii c <=? nat_of_ascii d) eqn:E.
    + apply Nat.leb_le in E. constructor; [exact Hs|]. now constructor.
    + apply Nat.leb_gt in E. inversion Hs as [|? ? Hs' Hhd]; subst.
      constructor; [now apply IH|].
      destruct cs as [|e cs]; simpl.
      * constructor. unfold char_le. lia.
      * destruct (_ <=? _); constructor; unfold char_le; try lia.
        now inversion Hhd.
Qed.

Lemma sort_list_sorted (cs : list ascii) :
  Sorted char_le (fold_right insert_char [] cs).
Proof.
  induction cs as [|c cs IH]; [constructor|]. simpl.
  now apply insert_char_sorted.
Qed.

Lemma sort_chars_list (s : string) :
  list_ascii_of_string (sort_chars s)
  = fold_right insert_char [] (list_ascii_of_string s).
Proof. unfold sort_chars. apply list_ascii_of_string_of_list_ascii. Qed.

Lemma sort_chars_same (d d' : string) :
  sameDots d d' -> sort_chars d = sort_chars d'.
Proof.
  intros H. unfold sort_chars. f_equal.
  apply (sorting.Sorted_unique char_le); try apply sort_list_sorted.
  now rewrite !sort_list_perm.
Qed.

Lemma sort_chars_sameDots (d : string) : sameDots (sort_chars d) d.
Proof. unfold sameDots. rewrite sort_chars_list. apply sort_list_perm. Qed.

Lemma dotsToKey_join (ds : list string) :
  dotsToKey ds = join "|" (map sort_chars ds).
Proof. now destruct ds as [|d [|d' ds]]. Qed.

(** X12: the dot key is canonical: it does not depend on the order in which the
    dots of each cell are written, its cells are sorted by character code,
    and normalising the cells of a key again changes nothing. *)
Theorem dotsToKey_is_canonical (ds ds' : list string) :
  Forall2 sameDots ds ds' ->
  dotsToKey ds = dotsToKey ds'
  /\ dotsToKey (map sort_chars ds) = dotsToKey ds
  /\ Forall (fun d => Sorted char_le (list_ascii_of_string (sort_chars d))) ds.
Proof.
  intros H. rewrite !dotsToKey_join. split; [|split].
  - f_equal. induction H as [|d d' ds ds' Hd _ IH]; [reflexivity|].
    simpl. f_equal; [now apply sort_chars_same|exact IH].
  - f_equal. rewrite map_map. apply map_ext. intros d.
    apply sort_chars_same, sort_chars_sameDots.
  - apply Forall_forall. intros d _. rewrite sort_chars_list.
    apply sort_list_sorted.
Qed.

Lemma dotsToKey_is_canonical_witness :
  dotsToKey ["42"%string; "631"%string] = dotsToKey ["24"%string; "136"%string]
  /\ dotsToKey (map sort_chars ["42"%string; "631"%string])
     = dotsToKey ["42"%string; "631"%string]
  /\ Forall (fun d => Sorted char_le (list_ascii_of_string (sort_chars d)))
            ["42"%string; "631"%string].
Proof.
  apply (dotsToKey_is_canonical ["42"%string; "631"%string]
                                ["24"%string; "136"%string]).
  constructor; [|constructor; [|constructor]]; unfold sameDots; simpl.
  - apply perm_swap.
  - eapply perm_trans; [apply perm_skip, perm_swap|].
    eapply perm_trans; [apply perm_swap|].
    apply perm_skip, perm_swap.
Defined.

Lemma list_ascii_append (a b : string) :
  list_ascii_of_string (a +:+ b)
  = list_ascii_of_string a ++ list_ascii_of_string b.
Proof. induction a as [|c a IH]; [reflexivity|]. simpl. now rewrite IH. Qed.

Lemma sepCount_app (l l' : list ascii) :
  sepCount (l ++ l') = sepCount l + sepCount l'.
Proof. unfold sepCount. now rewrite List.filter_app, length_app. Qed.

Lemma count_sep_append (a b : string) :
  count_sep (a +:+ b) = count_sep a + count_sep b.
Proof. unfold count_sep. now rewrite list_ascii_append, sepCount_app. Qed.

Lemma sepCount_perm (l l' : list ascii) :
  l ≡ₚ l' -> sepCount l = sepCount l'.
Proof.
  unfold sepCount. induction 1 as [|x l l' _ IH|x y l|l l' l'' _ IH1 _ IH2];
    simpl; try reflexivity.
  - destruct (Ascii.eqb x "|"); simpl; now rewrite IH.
  - now destruct (Ascii.eqb x "|"), (Ascii.eqb y "|").
  - now rewrite IH1.
Qed.

Lemma count_sep_sort (d : string) : count_sep (sort_chars d) = count_sep d.
Proof. apply sepCount_perm, sort_chars_sameDots. Qed.

Lemma prefix_split (p s : string) :
  String.prefix p s = true -> exists r, s = p +:+ r.
Proof.
  revert s. induction p as [|c p IH]; intros s H.
  - now exists s.
  - destruct s as [|c' s]; [discriminate H|]. simpl in H.
    destruct (ascii_dec c c') as [<-|]; [|discriminate H].
    destruct (IH s H) as [r ->]. now exists r.
Qed.

Lemma count_sep_join_ge (cells : list string) :
  pred (length cells) <= count_sep (join "|" cells).
Proof.
  unfold join. induction cells as [|c [|c' cells] IH]; simpl; try lia.
  rewrite !count_sep_append. simpl in IH.
  change (count_sep "|") with 1. lia.
Qed.

Lemma count_sep_join_free (cells : list string) :
  Forall (fun d => count_sep d = 0) cells ->
  count_sep (join "|" cells) = pred (length cells).
Proof.
  unfold join. induction cells as [|c [|c' cells] IH]; intros H; simpl.
  - reflexivity.
  - now inversion H.
  - inversion H as [|? ? Hc Hrest]; subst.
    rewrite !count_sep_append, Hc. change (count_sep "|") with 1.
    simpl in IH. rewrite (IH Hrest). reflexivity.
Qed.

(** A key built from cells that hold no separator has one separator less
    than it has cells, so the number of cells can be read off the key. *)
Lemma dotsToKey_separators (ds : list string) :
  Forall (fun d => count_sep d = 0) ds ->
  count_sep (dotsToKey ds) = pred (length ds).
Proof.
  intros H. rewrite dotsToKey_join, count_sep_join_free, length_map; auto.
  apply List.Forall_forall. intros d Hd. apply in_map_iff in Hd as (d0 & <- & Hd0).
  rewrite count_sep_sort. rewrite List.Forall_forall in H. now apply H.
Qed.

Lemma max1_ge (x : nat) (l : list nat) : In x l -> x <= max1 l.
Proof.
  unfold max1. induction l as [|y l IH]; intros H; [destruct H|].
  simpl. destruct H as [->|H]; [lia|]. specialize (IH H). lia.
Qed.

Lemma max1_pos (l : list nat) : 1 <= max1 l.
Proof. unfold max1. induction l as [|y l IH]; simpl; lia. Qed.

(** An indicator as the unifier builds it from cells without separator. *)
Definition keyedByDots (i : IndicatorDef) : Prop :=
  ind_dotsKey i = dotsToKey (ind_dots i)
  /\ Forall (fun d => count_sep d = 0) (ind_dots i).

(** X11: the indicator matcher never buffers as many cells as its longest
    indicator has: when every indicator's key is the dot key of its cells,
    then after any sequence of calls the buffer is shorter than [maxCells],
    so that a [pending] answer cannot be repeated for ever. *)
Theorem indicator_buffer_is_bounded
    (inds : list IndicatorDef) (cs : list MatcherResults.MatcherCall) :
  Forall keyedByDots inds ->
  let m := MatcherResults.performAllI
             cs (IndicatorMatcher.setIndicators inds IndicatorMatcher.new) in
  length (IndicatorMatcher.pendingCells m) < IndicatorMatcher.maxCells m.
Proof.
  intros Hwf. cbv zeta.
  set (mx := max1 (map (fun i => length (ind_dots i)) inds)).
  assert (Hpos : 0 < mx) by (pose proof (max1_pos
            (map (fun i => length (ind_dots i)) inds)); unfold mx; lia).
  assert (Hinv : forall m,
            IndicatorMatcher.indicators m = inds ->
            IndicatorMatcher.maxCells m = mx ->
            forall c,
              IndicatorMatcher.indicators (MatcherResults.performI c m) = inds
              /\ IndicatorMatcher.maxCells (MatcherResults.performI c m) = mx
              /\ length (IndicatorMatcher.pendingCells
                           (MatcherResults.performI c m)) < mx).
  { intros m Hi Hm c. destruct c; cbn [MatcherResults.performI];
      [|cbn; auto|cbn; auto].
    unfold IndicatorMatcher.tryMatch.
    set (cells := IndicatorMatcher.pendingCells m ++ [dotsKey]).
    assert (Hbound :
      IndicatorMatcher.hasLongerPrefix m (join "|" cells) = true ->
      length cells < mx).
    { intros Hl. apply existsb_exists in Hl as (i & Hin & Hst).
      rewrite Hi in Hin. rewrite List.Forall_forall in Hwf.
      destruct (Hwf i Hin) as [Hk Hfree].
      apply prefix_split in Hst as [r Hr].
      pose proof (f_equal count_sep Hr) as Hc.
      rewrite !count_sep_append in Hc. change (count_sep "|") with 1 in Hc.
      rewrite Hk, (dotsToKey_separators _ Hfree) in Hc.
      pose proof (count_sep_join_ge cells) as Hge.
      assert (Hlen : 1 <= length cells)
        by (unfold cells; rewrite length_app; simpl; lia).
      assert (Hmax : length (ind_dots i) <= mx).
      { apply max1_ge, in_map_iff. now exists i. }
      lia. }
    destruct (IndicatorMatcher.findExact m _).
    - destruct (IndicatorMatcher.hasLongerPrefix m _); cbn; auto.
    - destruct (IndicatorMatcher.hasLongerPrefix m _); cbn [andb].
      + destruct (length cells <? _) eqn:E; cbn; auto.
        destruct (IndicatorMatcher.deferredMatch m); cbn; auto.
      + destruct (IndicatorMatcher.deferredMatch m); cbn; auto. }
  assert (Hall :
    IndicatorMatcher.indicators
      (MatcherResults.performAllI
         cs (IndicatorMatcher.setIndicators inds IndicatorMatcher.new)) = inds
    /\ IndicatorMatcher.maxCells
         (MatcherResults.performAllI
            cs (IndicatorMatcher.setIndicators inds IndicatorMatcher.new)) = mx
    /\ length (IndicatorMatcher.pendingCells
                 (MatcherResults.performAllI
                    cs (IndicatorMatcher.setIndicators
                          inds IndicatorMatcher.new))) < mx).
  { induction cs as [|c cs IH] using rev_ind; [cbn; auto|].
    unfold MatcherResults.performAllI in *.
    rewrite fold_left_app. cbn [fold_left].
    destruct IH as (H1 & H2 & _). now apply Hinv. }
  destruct Hall as (_ & H2 & H3). now rewrite H2.
Qed.

Lemma indicator_buffer_is_bounded_witness :
  let m := MatcherResults.performAllI
             [MatcherResults.CallTryMatch "6"]
             (IndicatorMatcher.setIndicators
                [MatcherFacts.capitalInd; MatcherFacts.capitalWordInd]
                IndicatorMatcher.new) in
  length (IndicatorMatcher.pendingCells m) < IndicatorMatcher.maxCells m.
Proof.
  apply (indicator_buffer_is_bounded
           [MatcherFacts.capitalInd; MatcherFacts.capitalWordInd]
           [MatcherResults.CallTryMatch "6"]).
  repeat constructor.
Defined.

End KeyFormat.

(** ** Data unifier: what the tables hold *)

Module UnifierTables.
Import UnifierFacts.

(** [buildUnifiedData] started from tables that are already filled. *)
Definition buildFrom (data : UnifiedData)
    (allProfiles : list (string * list RawBrailleProfile)) : UnifiedData :=
  fold_left
    (fun data '(systemId, profiles) =>
       fold_left
         (fun data profile =>
            let modes := systemIdToModes systemId (braille_type profile) in
            fold_left (addEntry modes) (profile_entries profile) data)
         profiles data)
    allProfiles data.

(** The raw entries in the order in which [buildUnifiedData] visits them,
    each with the modes derived from its profile. *)
Definition allEntries (allProfiles : list (string * list RawBrailleProfile))
    : list (list Mode * RawBrailleEntry) :=
  flat_map
    (fun '(systemId, profiles) =>
       flat_map
         (fun profile =>
            map (fun e => (systemIdToModes systemId (braille_type profile), e))
                (profile_entries profile))
         profiles)
    allProfiles.

Definition addAll (data : UnifiedData)
    (es : list (list Mode * RawBrailleEntry)) : UnifiedData :=
  fold_left (fun d '(modes, e) => addEntry modes d e) es data.

Lemma fold_left_flat_map {A B C} (f : A -> B -> A) (g : C -> list B)
    (l : list C) (a : A) :
  fold_left f (flat_map g l) a = fold_left (fun a x => fold_left f (g x) a) l a.
Proof.
  revert a. induction l as [|x l IH]; intros a; [reflexivity|].
  simpl. now rewrite fold_left_app, IH.
Qed.

Lemma fold_left_map {A B C} (f : A -> B -> A) (g : C -> B)
    (l : list C) (a : A) :
  fold_left f (map g l) a = fold_left (fun a x => f a (g x)) l a.
Proof. revert a. induction l as [|x l IH]; intros a; simpl; auto. Qed.

Lemma fold_left_ext {A B} (f g : A -> B -> A) (l : list B) (a : A) :
  (forall a x, f a x = g a x) -> fold_left f l a = fold_left g l a.
Proof.
  intros H. revert a. induction l as [|x l IH]; intros a; simpl; [auto|].
  now rewrite H, IH.
Qed.

Lemma buildFrom_addAll (data : UnifiedData)
    (allProfiles : list (string * list RawBrailleProfile)) :
  buildFrom data allProfiles = addAll data (allEntries allProfiles).
Proof.
  unfold buildFrom, addAll, allEntries. rewrite fold_left_flat_map.
  apply fold_left_ext. intros a [systemId profiles].
  rewrite fold_left_flat_map. apply fold_left_ext. intros b profile.
  now rewrite fold_left_map.
Qed.

Lemma buildUnifiedData_addAll
    (allProfiles : list (string * list RawBrailleProfile)) :
  buildUnifiedData allProfiles = addAll emptyData (allEntries allProfiles).
Proof. apply (buildFrom_addAll emptyData). Qed.

Lemma systemIdToModes_nonempty (systemId brailleType : string) :
  systemIdToModes systemId brailleType <> [].
Proof.
  unfold systemIdToModes.
  repeat match goal with |- context [if ?c then _ else _] => destruct c end;
    discriminate.
Qed.

Lemma allEntries_modes (allProfiles : list (string * list RawBrailleProfile))
    (modes : list Mode) (e : RawBrailleEntry) :
  In (modes, e) (allEntries allProfiles) -> modes <> [].
Proof.
  unfold allEntries. intros H.
  apply in_flat_map in H as ([systemId profiles] & _ & H).
  apply in_flat_map in H as (profile & _ & H).
  apply in_map_iff in H as (e0 & E & _). inversion E; subst.
  apply systemIdToModes_nonempty.
Qed.

(** Induction over the entries that [buildUnifiedData] adds. *)
Lemma build_invariant (P : UnifiedData -> Prop)
    (allProfiles : list (string * list RawBrailleProfile)) :
  P emptyData ->
  (forall modes data entry,
     modes <> [] -> P data -> P (addEntry modes data entry)) ->
  P (buildUnifiedData allProfiles).
Proof.
  intros H0 Hstep. rewrite buildUnifiedData_addAll.
  pose proof (allEntries_modes allProfiles) as Hm.
  induction (allEntries allProfiles) as [|[modes e] es IH] using rev_ind;
    [exact H0|].
  unfold addAll in *. rewrite fold_left_app. cbn [fold_left].
  apply Hstep.
  - apply (Hm modes e). apply in_or_app. right. now left.
  - apply IH. intros modes' e' H. apply (Hm modes' e').
    apply in_or_app. now left.
Qed.

Definition isIndicatorEntry (e : RawBrailleEntry) : bool :=
  String.eqb (role e) "indicator" || String.eqb (category e) "indicator".

Definition truthy (t : jsstring) : Prop := t <> [].

Lemma print_truthy (p : option jsstring) :
  print_falsy p = false -> truthy (print_text p).
Proof. destruct p as [[|c t]|]; cbn; try discriminate. Qed.

(** An entry of the single-cell table is well formed: it is stored under
    its own dot key, and each of its mappings has a non-empty print and a
    role other than indicator. *)
Definition wellFormedCell (key : string) (u : UnifiedEntry) : Prop :=
  ue_dots u = key
  /\ forall mode mp, mappings u mode = Some mp ->
       truthy (dm_print mp) /\ dm_role mp <> "indicator"%string.

Definition cellsWellFormed (map : gmap string UnifiedEntry) : Prop :=
  forall key u, map !! key = Some u -> wellFormedCell key u.

Lemma set_mapping_wellFormed (key : string) (u : UnifiedEntry)
    (mode : Mode) (mp : DotMapping) :
  wellFormedCell key u -> truthy (dm_print mp) ->
  dm_role mp <> "indicator"%string ->
  wellFormedCell key (set_mapping mode mp u).
Proof.
  intros [Hd Hm] Hp Hr. split; [exact Hd|].
  intros mode' mp' H. cbn in H. destruct (bool_decide _).
  - inversion H; subst. split; assumption.
  - exact (Hm mode' mp' H).
Qed.

Lemma insert_wellFormed (map : gmap string UnifiedEntry) (key : string)
    (u : UnifiedEntry) :
  cellsWellFormed map -> wellFormedCell key u ->
  cellsWellFormed (<[key := u]> map).
Proof.
  intros Hmap Hu key' u' H.
  destruct (decide (key = key')) as [<-|Hne].
  - rewrite lookup_insert_eq in H. now inversion H; subst.
  - rewrite lookup_insert_ne in H by exact Hne. now apply Hmap.
Qed.

Lemma processSingleCell_wellFormed (entry : RawBrailleEntry) (mode : Mode)
    (map : gmap string UnifiedEntry) :
  role entry <> "indicator"%string ->
  cellsWellFormed map -> cellsWellFormed (processSingleCell entry mode map).
Proof.
  intros Hrole Hmap. unfold processSingleCell.
  destruct (print_falsy (print entry)) eqn:Hp; [exact Hmap|].
  apply print_truthy in Hp.
  set (key := dotsToKey (dots entry)).
  assert (Hfresh : wellFormedCell key {| ue_dots := key;
                                         mappings := fun _ => None |}).
  { split; [reflexivity|]. intros mode' mp H. discriminate H. }
  destruct (map !! key) as [u|] eqn:Hu.
  - pose proof (Hmap key u Hu) as Hwf.
    destruct (mappings u mode) as [existing|].
    + destruct (_ && _); [|exact Hmap].
      apply insert_wellFormed; [exact Hmap|].
      now apply set_mapping_wellFormed.
    + apply insert_wellFormed; [exact Hmap|].
      now apply set_mapping_wellFormed.
  - cbn. apply insert_wellFormed;
      [now apply insert_wellFormed|now apply set_mapping_wellFormed].
Qed.

Lemma fold_modes_invariant (P : gmap string UnifiedEntry -> Prop)
    (entry : RawBrailleEntry) (modes : list Mode)
    (map : gmap string UnifiedEntry) :
  (forall mode m, P m -> P (processSingleCell entry mode m)) ->
  P map ->
  P (fold_left (fun m mode => processSingleCell entry mode m) modes map).
Proof.
  intros Hstep. revert map. induction modes as [|mode modes IH];
    intros map H; simpl; auto.
Qed.

(** X13: the single-cell table that [buildUnifiedData] returns: every entry is
    stored under its own canonical dot key, every mapping has a non-empty
    print, and no mapping comes from an indicator entry. *)
Theorem single_cell_table_is_well_formed
    (allProfiles : list (string * list RawBrailleProfile)) :
  forall key u,
    singleCellMap (buildUnifiedData allProfiles) !! key = Some u ->
    ue_dots u = key
    /\ forall mode mp, mappings u mode = Some mp ->
         dm_print mp <> [] /\ dm_role mp <> "indicator"%string.
Proof.
  apply (build_invariant (fun data => cellsWellFormed (singleCellMap data))).
  - intros key u H. cbn in H. rewrite lookup_empty in H. discriminate H.
  - intros modes data entry _ Hinv. unfold addEntry.
    destruct (String.eqb (role entry) "indicator") eqn:Hr; cbn [orb];
      [exact Hinv|].
    apply String.eqb_neq in Hr.
    destruct (String.eqb (category entry) "indicator"); [exact Hinv|].
    destruct (length (dots entry) =? 1).
    + cbn [singleCellMap]. apply fold_modes_invariant; [|exact Hinv].
      intros mode m. now apply processSingleCell_wellFormed.
    + destruct (_ && _); exact Hinv.
Qed.

Lemma processSingleCell_dom (entry : RawBrailleEntry) (mode : Mode)
    (map : gmap string UnifiedEntry) (key : string) :
  is_Some (map !! key) -> is_Some (processSingleCell entry mode map !! key).
Proof.
  intros Hk. unfold processSingleCell.
  destruct (print_falsy (print entry)); [exact Hk|].
  assert (Hins : forall (m : gmap string UnifiedEntry) k' u,
            is_Some (m !! key) -> is_Some (<[k' := u]> m !! key)).
  { intros m k' u H. destruct (decide (k' = key)) as [->|Hne].
    - rewrite lookup_insert_eq. eauto.
    - now rewrite lookup_insert_ne. }
  destruct (map !! dotsToKey (dots entry)) as [u|]; cbn.
  - destruct (mappings u mode); [destruct (_ && _)|]; auto.
  - auto.
Qed.

Lemma processSingleCell_registers (entry : RawBrailleEntry) (mode : Mode)
    (map : gmap string UnifiedEntry) :
  print_falsy (print entry) = false ->
  is_Some (processSingleCell entry mode map !! dotsToKey (dots entry)).
Proof.
  intros Hp. unfold processSingleCell. rewrite Hp.
  destruct (map !! dotsToKey (dots entry)) as [u|] eqn:Hu; cbn.
  - destruct (mappings u mode); [destruct (_ && _)|];
      rewrite ?lookup_insert_eq, ?Hu; eauto.
  - rewrite lookup_insert_eq. eauto.
Qed.

(** X14: the numeric table that [buildUnifiedData] returns holds only entries of
    role numbers with a non-empty print, and every dot key of the numeric
    table is also a key of the single-cell table. *)
Theorem numeric_table_is_well_formed
    (allProfiles : list (string * list RawBrailleProfile)) :
  forall key mp,
    numericMap (buildUnifiedData allProfiles) !! key = Some mp ->
    dm_role mp = "numbers"%string
    /\ dm_print mp <> []
    /\ is_Some (singleCellMap (buildUnifiedData allProfiles) !! key).
Proof.
  apply (build_invariant
           (fun data => forall key mp,
              numericMap data !! key = Some mp ->
              dm_role mp = "numbers"%string /\ dm_print mp <> []
              /\ is_Some (singleCellMap data !! key))).
  - intros key mp H. cbn in H. rewrite lookup_empty in H. discriminate H.
  - intros modes data entry Hmodes Hinv. unfold addEntry.
    destruct (_ || _); [exact Hinv|].
    destruct (length (dots entry) =? 1); [|destruct (_ && _); exact Hinv].
    cbn [singleCellMap numericMap].
    set (scm := fold_left _ modes (singleCellMap data)).
    assert (Hdom : forall key, is_Some (singleCellMap data !! key) ->
                                is_Some (scm !! key)).
    { intros key. unfold scm.
      apply (fold_modes_invariant
               (fun m => is_Some (singleCellMap data !! key) ->
                         is_Some (m !! key))); [|auto].
      intros mode m Hm H. now apply processSingleCell_dom, Hm. }
    assert (Hold : forall key mp,
              numericMap data !! key = Some mp ->
              dm_role mp = "numbers"%string /\ dm_print mp <> []
              /\ is_Some (scm !! key)).
    { intros key mp H. destruct (Hinv key mp H) as (H1 & H2 & H3). auto. }
    destruct (String.eqb (role entry) "numbers") eqn:Hr; cbn [andb];
      [|exact Hold].
    destruct (print_falsy (print entry)) eqn:Hp; cbn [negb]; [exact Hold|].
    destruct (numericMap data !! dotsToKey (dots entry)) eqn:Hn;
      [exact Hold|].
    intros key mp H.
    destruct (decide (dotsToKey (dots entry) = key)) as [<-|Hne].
    + rewrite lookup_insert_eq in H. inversion H; subst mp. cbn.
      split; [now apply String.eqb_eq|]. split; [now apply print_truthy|].
      unfold scm. destruct modes as [|mode modes]; [congruence|]. simpl.
      apply (fold_modes_invariant
               (fun m => is_Some (m !! dotsToKey (dots entry)))).
      * intros mode' m. apply processSingleCell_dom.
      * now apply processSingleCell_registers.
    + rewrite lookup_insert_ne in H by exact Hne. now apply Hold.
Qed.

(** [processIndicator] and [processMultiCell] append one element. *)
Lemma processIndicator_app (entry : RawBrailleEntry) (inds : list IndicatorDef) :
  processIndicator entry inds = inds ++ processIndicator entry [].
Proof. reflexivity. Qed.

Definition indicatorConsistent (i : IndicatorDef) : Prop :=
  ind_dotsKey i = dotsToKey (ind_dots i)
  /\ (indicatorType i = modifier_type <-> modifier i <> None)
  /\ (indicatorType i = mode_switch <-> modifier i = None).

Definition multiCellConsistent (e : MultiCellEntry) : Prop :=
  mc_dotsKey e = dotsToKey (mc_dots e)
  /\ 2 <= length (mc_dots e)
  /\ mc_print e <> []
  /\ mc_role e <> "indicator"%string.

Lemma processIndicator_consistent (entry : RawBrailleEntry)
    (inds : list IndicatorDef) :
  Forall indicatorConsistent inds ->
  Forall indicatorConsistent (processIndicator entry inds).
Proof.
  intros H. unfold processIndicator. apply Forall_app. split; [exact H|].
  constructor; [|constructor]. unfold indicatorConsistent. cbn.
  split; [reflexivity|].
  destruct (MODIFIER_SUBCATEGORIES (subcategory entry)); split; split;
    intros H'; try discriminate; try reflexivity; congruence.
Qed.

(** X15: the two list tables that [buildUnifiedData] returns are consistent: each
    indicator's key is the dot key of its cells and it is a modifier exactly
    when it carries a modifier kind; each multi-cell entry's key is the dot
    key of its cells, it has at least two cells, a non-empty print, and does
    not come from an indicator entry. *)
Theorem list_tables_are_consistent
    (allProfiles : list (string * list RawBrailleProfile)) :
  Forall (fun i => ind_dotsKey i = dotsToKey (ind_dots i)
                   /\ (indicatorType i = modifier_type <-> modifier i <> None)
                   /\ (indicatorType i = mode_switch <-> modifier i = None))
         (ud_indicators (buildUnifiedData allProfiles))
  /\ Forall (fun e => mc_dotsKey e = dotsToKey (mc_dots e)
                      /\ 2 <= length (mc_dots e)
                      /\ mc_print e <> []
                      /\ mc_role e <> "indicator"%string)
            (multiCellEntries (buildUnifiedData allProfiles)).
Proof.
  apply (build_invariant
           (fun data => Forall indicatorConsistent (ud_indicators data)
                        /\ Forall multiCellConsistent (multiCellEntries data))).
  - split; constructor.
  - intros modes data entry _ [Hi Hm]. unfold addEntry.
    destruct (String.eqb (role entry) "indicator") eqn:Hr; cbn [orb].
    { split; [now apply processIndicator_consistent|exact Hm]. }
    apply String.eqb_neq in Hr.
    destruct (String.eqb (category entry) "indicator").
    { split; [now apply processIndicator_consistent|exact Hm]. }
    destruct (length (dots entry) =? 1); [now split|].
    destruct (1 <? length (dots entry)) eqn:Hlen; cbn [andb]; [|now split].
    destruct (print_falsy (print entry)) eqn:Hp; cbn [negb]; [now split|].
    split; [exact Hi|]. cbn [multiCellEntries].
    clear Hi. revert Hm. generalize (multiCellEntries data).
    induction modes as [|mode modes IH]; intros l Hl; [exact Hl|].
    simpl. apply IH. unfold processMultiCell.
    apply Forall_app. split; [exact Hl|].
    constructor; [|constructor]. unfold multiCellConsistent. cbn.
    split; [reflexivity|]. split; [now apply Nat.ltb_lt in Hlen|].
    split; [now apply print_truthy|exact Hr].
Qed.

(** X16: a raw entry without print leaves the single-cell table as it is, and
    an entry with print touches one mapping only: the mapping of every other
    dot key, and of the same dot key under every other mode, is what it was. *)
Theorem processSingleCell_touches_one_mapping
    (entry : RawBrailleEntry) (mode : Mode) (map : gmap string UnifiedEntry) :
  (print_falsy (print entry) = true -> processSingleCell entry mode map = map)
  /\ (forall key' mode',
        key' <> dotsToKey (dots entry) \/ mode' <> mode ->
        mappingAt (processSingleCell entry mode map) key' mode'
        = mappingAt map key' mode').
Proof.
  split.
  { intros Hp. unfold processSingleCell. now rewrite Hp. }
  intros key' mode' Hne. unfold processSingleCell.
  destruct (print_falsy (print entry)); [reflexivity|].
  set (key := dotsToKey (dots entry)) in *.
  set (mapping := {| dm_print := print_text (print entry);
                     dm_role := role entry; dm_id := id entry |}).
  assert (Hset : forall (m : gmap string UnifiedEntry) u,
            mappingAt m key mode' = mappings u mode' ->
            mappingAt (<[key := set_mapping mode mapping u]> m) key' mode'
            = mappingAt m key' mode').
  { intros m u Hu. unfold mappingAt in *.
    destruct (decide (key' = key)) as [->|Hk].
    - rewrite lookup_insert_eq. cbn.
      destruct Hne as [Hne|Hne]; [congruence|].
      rewrite bool_decide_eq_false_2 by exact Hne. now rewrite Hu.
    - rewrite lookup_insert_ne by congruence. reflexivity. }
  destruct (map !! key) as [u|] eqn:Hu.
  - assert (Hmu : mappingAt map key mode' = mappings u mode')
      by (unfold mappingAt; now rewrite Hu).
    destruct (mappings u mode); [destruct (_ && _)|]; auto.
  - cbn. rewrite Hset.
    + unfold mappingAt. destruct (decide (key' = key)) as [->|Hk].
      * now rewrite lookup_insert_eq, Hu.
      * now rewrite lookup_insert_ne by congruence.
    + unfold mappingAt. now rewrite lookup_insert_eq.
Qed.

(** [mp] stands where [existing] stood: it is the same mapping, or a paired
    (open or close) mapping that replaced a mapping of another role. *)
Definition keeps (existing mp : DotMapping) : Prop :=
  mp = existing
  \/ (isPaired (dm_role mp) = true /\ isPaired (dm_role existing) = false).

Lemma keeps_trans (a b c : DotMapping) : keeps a b -> keeps b c -> keeps a c.
Proof.
  unfold keeps. intros [->|[H1 H2]] [->|[H3 H4]]; auto.
Qed.

Definition cellsKept (m m' : gmap string UnifiedEntry) : Prop :=
  forall key mode existing,
    mappingAt m key mode = Some existing ->
    exists mp, mappingAt m' key mode = Some mp /\ keeps existing mp.

Lemma cellsKept_refl (m : gmap string UnifiedEntry) : cellsKept m m.
Proof. intros key mode existing H. exists existing. split; [exact H|now left]. Qed.

Lemma cellsKept_trans (m1 m2 m3 : gmap string UnifiedEntry) :
  cellsKept m1 m2 -> cellsKept m2 m3 -> cellsKept m1 m3.
Proof.
  intros H12 H23 key mode existing H.
  destruct (H12 key mode existing H) as (mp & Hmp & Hk).
  destruct (H23 key mode mp Hmp) as (mp' & Hmp' & Hk').
  exists mp'. split; [exact Hmp'|]. now apply (keeps_trans _ mp).
Qed.

Lemma processSingleCell_kept (entry : RawBrailleEntry) (mode : Mode)
    (map : gmap string UnifiedEntry) :
  cellsKept map (processSingleCell entry mode map).
Proof.
  intros key' mode' existing H.
  destruct (print_falsy (print entry)) eqn:Hp.
  { destruct (processSingleCell_touches_one_mapping entry mode map) as [H0 _].
    rewrite (H0 Hp). exists existing. split; [exact H|now left]. }
  destruct (decide (key' = dotsToKey (dots entry))) as [->|Hk];
    [destruct (decide (mode' = mode)) as [->|Hm]|].
  - rewrite (processSingleCell_conflict entry mode map existing Hp H).
    eexists. split; [reflexivity|].
    destruct (isPaired (role entry)) eqn:E1; cbn [andb]; [|now left].
    destruct (isPaired (dm_role existing)) eqn:E2; cbn [negb]; [now left|].
    right. cbn. auto.
  - destruct (processSingleCell_touches_one_mapping entry mode map) as [_ H1].
    rewrite H1 by auto. exists existing. split; [exact H|now left].
  - destruct (processSingleCell_touches_one_mapping entry mode map) as [_ H1].
    rewrite H1 by auto. exists existing. split; [exact H|now left].
Qed.

(** One table extends another: single-cell mappings are kept, numeric
    entries are unchanged, and the two lists only grow at the end. *)
Definition extends (d d' : UnifiedData) : Prop :=
  cellsKept (singleCellMap d) (singleCellMap d')
  /\ (forall key mp, numericMap d !! key = Some mp ->
                     numericMap d' !! key = Some mp)
  /\ (exists l, ud_indicators d' = ud_indicators d ++ l)
  /\ (exists l, multiCellEntries d' = multiCellEntries d ++ l).

Lemma extends_refl (d : UnifiedData) : extends d d.
Proof.
  split; [apply cellsKept_refl|]. split; [auto|].
  split; exists []; now rewrite app_nil_r.
Qed.

Lemma extends_trans (d1 d2 d3 : UnifiedData) :
  extends d1 d2 -> extends d2 d3 -> extends d1 d3.
Proof.
  intros (A1 & B1 & [l1 C1] & [k1 D1]) (A2 & B2 & [l2 C2] & [k2 D2]).
  split; [now apply (cellsKept_trans _ (singleCellMap d2))|].
  split; [auto|].
  split; [exists (l1 ++ l2); now rewrite C2, C1, app_assoc|].
  exists (k1 ++ k2). now rewrite D2, D1, app_assoc.
Qed.

Lemma addEntry_extends (modes : list Mode) (d : UnifiedData)
    (entry : RawBrailleEntry) :
  extends d (addEntry modes d entry).
Proof.
  unfold addEntry.
  destruct (_ || _).
  { split; [apply cellsKept_refl|]. split; [auto|].
    split; [now exists (processIndicator entry [])|].
    exists []. cbn. now rewrite app_nil_r. }
  destruct (length (dots entry) =? 1).
  { split; [|split; [|split; exists []; cbn; now rewrite app_nil_r]].
    - cbn [singleCellMap].
      apply (fold_modes_invariant (cellsKept (singleCellMap d)));
        [|apply cellsKept_refl].
      intros mode m Hm. apply (cellsKept_trans _ m); [exact Hm|].
      apply processSingleCell_kept.
    - cbn [numericMap]. intros key mp H.
      destruct (_ && _); [|exact H].
      destruct (numericMap d !! dotsToKey (dots entry)) eqn:E; [exact H|].
      rewrite lookup_insert_ne; [exact H|]. intros <-. congruence. }
  destruct (_ && _); [|apply extends_refl].
  split; [apply cellsKept_refl|]. split; [auto|].
  split; [exists []; cbn; now rewrite app_nil_r|].
  cbn [multiCellEntries]. generalize (multiCellEntries d) as l.
  induction modes as [|mode modes IH]; intros l.
  - exists []. now rewrite app_nil_r.
  - simpl. destruct (IH (processMultiCell entry mode l)) as [l' ->].
    unfold processMultiCell. rewrite <- app_assoc. eauto.
Qed.

Lemma addAll_extends (es : list (list Mode * RawBrailleEntry))
    (d : UnifiedData) :
  extends d (addAll d es).
Proof.
  induction es as [|[modes e] es IH] using rev_ind.
  - apply extends_refl.
  - unfold addAll in *. rewrite fold_left_app. cbn [fold_left].
    eapply extends_trans; [exact IH|]. apply addEntry_extends.
Qed.

(** X17: loading is append-only: in the tables built from more profiles, every
    single-cell mapping built from the first profiles is still there or
    was replaced by a paired (open or close) mapping where it was not
    paired itself; every numeric entry is unchanged; and the indicators and
    multi-cell entries of the first profiles come first, in the same
    order. *)
Theorem later_profiles_extend_the_tables
    (first more : list (string * list RawBrailleProfile)) :
  let d := buildUnifiedData first in
  let d' := buildUnifiedData (first ++ more) in
  (forall key mode existing,
     mappingAt (singleCellMap d) key mode = Some existing ->
     exists mp,
       mappingAt (singleCellMap d') key mode = Some mp
       /\ (mp = existing
           \/ (isPaired (dm_role mp) = true
               /\ isPaired (dm_role existing) = false)))
  /\ (forall key mp, numericMap d !! key = Some mp ->
                     numericMap d' !! key = Some mp)
  /\ (exists l, ud_indicators d' = ud_indicators d ++ l)
  /\ (exists l, multiCellEntries d' = multiCellEntries d ++ l).
Proof.
  cbv zeta.
  assert (E : buildUnifiedData (first ++ more)
              = addAll (buildUnifiedData first) (allEntries more)).
  { unfold buildUnifiedData at 1. rewrite fold_left_app.
    apply (buildFrom_addAll (buildUnifiedData first) more). }
  rewrite E. apply addAll_extends.
Qed.

End UnifierTables.

(** ** Overlay tracker: recording order, lines, tracked lines *)

Module TrackerLines.
Import BrailleTracker.

(** [getTrackedLines()]: [Array.from(lineData.keys()).sort((a, b) => a - b)].
    The keys of a [Map] are distinct, so the sorted array does not depend on
    the order in which they were inserted. *)
Definition getTrackedLines (tr : t) : list nat :=
  sorting.merge_sort Nat.le (map fst (map_to_list tr)).

(** The array that [record] stores for a line whose array was [arr]. *)
Definition recorded (col : nat) (dotsKey : string) (arr : list string)
    : list string :=
  <[col := dotsKey]> (padTo col arr).

Lemma record_recorded (line col : nat) (k : string) (tr : t) :
  record line col k tr
  = <[line := recorded col k (TrackerFacts.storedLine line tr)]> tr.
Proof. reflexivity. Qed.

Lemma recorded_length (col : nat) (k : string) (arr : list string) :
  length (recorded col k arr) = Nat.max (length arr) (S col).
Proof. unfold recorded. now rewrite length_insert, TrackerFacts.padTo_length. Qed.

Lemma recorded_lookup (col : nat) (k : string) (arr : list string) (i : nat) :
  recorded col k arr !! i
  = if decide (i = col) then Some k
    else if decide (i < Nat.max (length arr) (S col))
         then Some (default ""%string (arr !! i))
         else None.
Proof.
  unfold recorded, padTo. rewrite TrackerFacts.pushEmpty_replicate.
  set (padded := arr ++ replicate (S col - length arr) ""%string).
  assert (Hlen : length padded = Nat.max (length arr) (S col)).
  { unfold padded. rewrite length_app, length_replicate. lia. }
  destruct (decide (i = col)) as [->|Hne].
  - apply list_lookup_insert_eq. lia.
  - rewrite list_lookup_insert_ne by congruence.
    destruct (decide (i < Nat.max (length arr) (S col))) as [Hlt|Hge].
    + unfold padded. destruct (decide (i < length arr)) as [Hi|Hi].
      * rewrite lookup_app_l by exact Hi.
        destruct (lookup_lt_is_Some_2 arr i Hi) as [x ->]. reflexivity.
      * rewrite lookup_app_r by lia.
        rewrite (lookup_ge_None_2 arr i) by lia. cbn.
        apply lookup_replicate_2. lia.
    + apply lookup_ge_None_2. lia.
Qed.

Lemma recorded_twice (col : nat) (k1 k2 : string) (arr : list string) :
  recorded col k2 (recorded col k1 arr) = recorded col k2 arr.
Proof.
  apply list_eq. intros i. rewrite !recorded_lookup, recorded_length.
  destruct (decide (i = col)); [reflexivity|].
  repeat case_decide; try lia; try reflexivity.
Qed.

Lemma recorded_commute (c1 c2 : nat) (k1 k2 : string) (arr : list string) :
  c1 <> c2 ->
  recorded c1 k1 (recorded c2 k2 arr) = recorded c2 k2 (recorded c1 k1 arr).
Proof.
  intros Hne. apply list_eq. intros i.
  rewrite !recorded_lookup, !recorded_length.
  repeat case_decide; subst; try lia; try reflexivity;
    rewrite (lookup_ge_None_2 arr i) by lia; reflexivity.
Qed.

(** X18: records are independent of their order: two records at different
    positions (another line, or another column of the same line) give the
    same tracker in either order, and of two records at the same position
    the later one alone counts. *)
Theorem records_commute
    (l1 c1 l2 c2 : nat) (k1 k2 : string) (tr : t) :
  (l1 <> l2 \/ c1 <> c2 ->
   record l1 c1 k1 (record l2 c2 k2 tr) = record l2 c2 k2 (record l1 c1 k1 tr))
  /\ record l1 c1 k2 (record l1 c1 k1 tr) = record l1 c1 k2 tr.
Proof.
  split.
  - intros Hne. rewrite !record_recorded. unfold TrackerFacts.storedLine.
    destruct (decide (l1 = l2)) as [->|Hl].
    + destruct Hne as [Hne|Hne]; [congruence|].
      rewrite !lookup_insert_eq, !insert_insert_eq.
      now rewrite recorded_commute.
    + rewrite !(lookup_insert_ne tr) by congruence.
      apply insert_insert_ne. congruence.
  - rewrite !record_recorded. unfold TrackerFacts.storedLine.
    rewrite lookup_insert_eq, insert_insert_eq. now rewrite recorded_twice.
Qed.

(** X19: whatever the tracker holds: the rendered line has one code unit per
    stored entry, [hasLine] tells whether it is non-empty, a line that was
    never recorded renders as the empty string, and a record leaves every
    other line as it was. *)
Theorem lines_render_independently (line : nat) (tr : t) :
  length (getLine line tr) = length (TrackerFacts.storedLine line tr)
  /\ (hasLine line tr = true <-> getLine line tr <> [])
  /\ (tr !! line = None -> getLine line tr = [] /\ hasLine line tr = false)
  /\ (forall line' col k,
        line' <> line ->
        getLine line (record line' col k tr) = getLine line tr
        /\ hasLine line (record line' col k tr) = hasLine line tr).
Proof.
  assert (Hlen : length (getLine line tr)
                 = length (TrackerFacts.storedLine line tr)).
  { unfold getLine, TrackerFacts.storedLine.
    destruct (tr !! line) as [arr|]; [|reflexivity].
    destruct (length arr =? 0) eqn:E.
    - apply Nat.eqb_eq in E. now rewrite E.
    - now rewrite TrackerFacts.concat_glyphs, length_map. }
  split; [exact Hlen|]. split; [|split].
  - unfold hasLine. unfold TrackerFacts.storedLine in Hlen.
    destruct (tr !! line) as [arr|].
    + rewrite Nat.ltb_lt. rewrite <- Hlen.
      destruct (getLine line tr); cbn; split; try lia; congruence.
    + split; [discriminate|]. cbn in Hlen.
      destruct (getLine line tr); [congruence|discriminate].
  - intros H. unfold getLine, hasLine. now rewrite H.
  - intros line' col k Hne. unfold getLine, hasLine, record.
    now rewrite lookup_insert_ne by exact Hne.
Qed.

(** The calls a client can make on the tracker. *)
Inductive TrackerCall :=
| CallRecord (line col : nat) (dotsKey : string)
| CallRecordSpace (line col : nat)
| CallClear.

Definition performT (c : TrackerCall) (tr : t) : t :=
  match c with
  | CallRecord line col k => record line col k tr
  | CallRecordSpace line col => recordSpace line col tr
  | CallClear => clear tr
  end.

Definition performAllT (cs : list TrackerCall) (tr : t) : t :=
  fold_left (fun tr c => performT c tr) cs tr.

Lemma getTrackedLines_elem (tr : t) (line : nat) :
  In line (getTrackedLines tr) <-> is_Some (tr !! line).
Proof.
  unfold getTrackedLines. rewrite <- list_elem_of_In.
  rewrite (sorting.merge_sort_Permutation Nat.le).
  rewrite list_elem_of_fmap. split.
  - intros ([l arr] & -> & H). apply elem_of_map_to_list in H. eauto.
  - intros [arr H]. exists (line, arr). split; [reflexivity|].
    now apply elem_of_map_to_list.
Qed.

Lemma sorted_nodup_strict (l : list nat) :
  Sorted.Sorted Nat.le l -> NoDup l -> Sorted.StronglySorted Nat.lt l.
Proof.
  intros Hs Hnd. apply sorting.Sorted_StronglySorted in Hs; [|apply _].
  induction Hs as [|x l Hs IH Hall]; [constructor|].
  apply NoDup_cons in Hnd as [Hx Hnd]. constructor; [now apply IH|].
  apply List.Forall_forall. intros y Hy.
  rewrite List.Forall_forall in Hall. specialize (Hall y Hy).
  assert (x <> y) by (intros ->; apply Hx; now apply list_elem_of_In).
  lia.
Qed.

(** X20: the tracked lines are listed once each, in strictly ascending order,
    and they are the lines that have an array; for a tracker built by
    records and clears from an empty one no array is empty, so the tracked
    lines are exactly the lines for which [hasLine] is true. *)
Theorem tracked_lines_are_the_recorded_lines
    (cs : list TrackerCall) (tr0 : t) :
  Sorted.StronglySorted Nat.lt (getTrackedLines tr0)
  /\ (forall line, In line (getTrackedLines tr0) <-> is_Some (tr0 !! line))
  /\ (forall line,
        In line (getTrackedLines (performAllT cs new))
        <-> hasLine line (performAllT cs new) = true).
Proof.
  split; [|split].
  - apply sorted_nodup_strict.
    + apply (sorting.Sorted_merge_sort Nat.le).
    + unfold getTrackedLines.
      rewrite (sorting.merge_sort_Permutation Nat.le).
      apply NoDup_fst_map_to_list.
  - apply getTrackedLines_elem.
  - assert (Hinv : forall line arr,
              performAllT cs new !! line = Some arr -> 0 < length arr).
    { induction cs as [|c cs IH] using rev_ind.
      - intros line arr H. unfold performAllT, new in H. cbn in H.
        rewrite lookup_empty in H. discriminate H.
      - unfold performAllT in *. rewrite fold_left_app. cbn [fold_left].
        set (tr := fold_left _ cs new) in *.
        assert (Hrec : forall l col k line arr,
                  record l col k tr !! line = Some arr -> 0 < length arr).
        { intros l col k line arr H. rewrite record_recorded in H.
          destruct (decide (l = line)) as [->|Hne].
          - rewrite lookup_insert_eq in H. inversion H.
            rewrite recorded_length. lia.
          - rewrite lookup_insert_ne in H by exact Hne. now apply (IH line). }
        destruct c; cbn [performT].
        + apply Hrec.
        + apply Hrec.
        + intros line arr H. unfold clear in H. rewrite lookup_empty in H.
          discriminate H. }
    intros line. rewrite getTrackedLines_elem. unfold hasLine.
    destruct (performAllT cs new !! line) as [arr|] eqn:E.
    + split; [intros _; apply Nat.ltb_lt; now apply (Hinv line)|eauto].
    + split; [intros [x Hx]; discriminate Hx|discriminate].
Qed.

End TrackerLines.

(** ** Pipeline driver: what a chord can and cannot do *)

Section DriverPipeline.

Variable toUpperCase : jsstring -> jsstring.

(** The text that the character stage emits for a cell. *)
Definition characterText (k : string) (d : Driver) : jsstring :=
  let pending := StateMachine.pendingModifier (stateMachine d) in
  let cap t := if bool_decide (pending = Some capital)
               then toUpperCase t else t in
  let normal :=
    match DotMapper.lookup (unifiedData d) k
            (StateMachine.getMode (stateMachine d)) with
    | Some mapping =>
        if bool_decide (StateMachine.getMode (stateMachine d) = kana)
           && String.eqb k "36"
        then cap (if kanaBracketOpen d then kanaOpen else kanaClose)
        else cap (dm_print mapping)
    | None => DotMapper.dotsKeyToUnicodeBraille k
    end in
  if bool_decide (pending = Some numeric) || isNumericMode d then
    match DotMapper.lookupNumeric (unifiedData d) k with
    | Some numMapping => dm_print numMapping
    | None => normal
    end
  else normal.

(** X21: every cell that reaches the character stage has the same effects,
    whichever branch emits it: exactly one insertion is requested, under the
    cell's own dot key; the pending modifier is consumed; the state machine
    is told of one emitted character; the matchers and the tables are not
    touched. The text is the digit of the numeric table when the continuation
    is on and the key resolves there (a pending capital is then dropped
    without effect), else the mapping found by the lookup (upper-cased under
    a pending capital), else the braille glyph of the key, as it is. *)
Theorem character_stage_effects (k : string) (d : Driver) :
  let d' := processCharacter toUpperCase k d in
  editorOutput d' = editorOutput d ++ [Insert (characterText k d) k]
  /\ stateMachine d'
     = StateMachine.onCharacterEmitted
         (snd (StateMachine.consumeModifier (stateMachine d)))
  /\ StateMachine.pendingModifier (stateMachine d') = None
  /\ indicatorMatcher d' = indicatorMatcher d
  /\ multiCellMatcher d' = multiCellMatcher d
  /\ unifiedData d' = unifiedData d
  /\ isActive d' = isActive d.
Proof.
  cbv zeta.
  assert (Hpm : forall s,
            StateMachine.pendingModifier
              (StateMachine.onCharacterEmitted
                 (StateMachine.set_pendingModifier None s)) = None).
  { intros s. now rewrite onCharacterEmitted_pendingModifier. }
  unfold processCharacter, characterText, normalLookup. cbn.
  destruct (bool_decide _ || isNumericMode d);
    [destruct (DotMapper.lookupNumeric _ _)|]; cbn;
    try destruct (DotMapper.lookup _ _ _); cbn;
    try destruct (bool_decide _ && String.eqb k "36"); cbn;
    rewrite ?Hpm; repeat split; reflexivity.
Qed.

(** A request that inserts text (not a space). *)
Definition isInsert (r : EditorRequest) : Prop :=
  match r with Insert _ _ => True | InsertSpace => False end.

(** [d'] continues [d]: the tables, the matchers' tables and the activation
    flag are the same, and the editor was asked for some more insertions of
    text. *)
Definition continues (d d' : Driver) : Prop :=
  unifiedData d' = unifiedData d
  /\ isActive d' = isActive d
  /\ IndicatorMatcher.indicators (indicatorMatcher d')
     = IndicatorMatcher.indicators (indicatorMatcher d)
  /\ IndicatorMatcher.maxCells (indicatorMatcher d')
     = IndicatorMatcher.maxCells (indicatorMatcher d)
  /\ MultiCellMatcher.entries (multiCellMatcher d')
     = MultiCellMatcher.entries (multiCellMatcher d)
  /\ MultiCellMatcher.maxCells (multiCellMatcher d')
     = MultiCellMatcher.maxCells (multiCellMatcher d)
  /\ MultiCellMatcher.pendingCells (multiCellMatcher d')
     = MultiCellMatcher.pendingCells (multiCellMatcher d)
  /\ exists l, editorOutput d' = editorOutput d ++ l /\ Forall isInsert l.

Lemma continues_refl d : continues d d.
Proof.
  repeat split; try reflexivity. exists []. now rewrite app_nil_r.
Qed.

Lemma continues_trans d1 d2 d3 :
  continues d1 d2 -> continues d2 d3 -> continues d1 d3.
Proof.
  intros (A1 & B1 & C1 & D1 & E1 & F1 & G1 & l1 & H1 & I1)
         (A2 & B2 & C2 & D2 & E2 & F2 & G2 & l2 & H2 & I2).
  repeat split; try congruence.
  exists (l1 ++ l2). split; [now rewrite H2, H1, app_assoc|].
  now apply Forall_app.
Qed.

Lemma processCharacter_continues k d :
  continues d (processCharacter toUpperCase k d).
Proof.
  destruct (character_stage_effects k d) as (Ho & _ & _ & Hi & Hm & Hu & Ha).
  unfold continues. rewrite Hi, Hm, Hu, Ha. repeat split.
  eexists. split; [exact Ho|]. now repeat constructor.
Qed.

Lemma forEachCell_continues f cells d :
  (forall k d, continues d (f k d)) -> continues d (forEachCell f cells d).
Proof.
  intros Hf. revert d. induction cells as [|k cells IH]; intros d.
  - apply continues_refl.
  - cbn. eapply continues_trans; [apply Hf|apply IH].
Qed.

Lemma applyIndicator_continues indicator d :
  continues d (applyIndicator indicator d).
Proof.
  unfold applyIndicator. destruct (bool_decide _);
    repeat split; exists []; cbn; now rewrite app_nil_r.
Qed.

Lemma tryMatch_tables k m :
  IndicatorMatcher.indicators (snd (IndicatorMatcher.tryMatch k m))
  = IndicatorMatcher.indicators m
  /\ IndicatorMatcher.maxCells (snd (IndicatorMatcher.tryMatch k m))
     = IndicatorMatcher.maxCells m.
Proof.
  unfold IndicatorMatcher.tryMatch.
  destruct (IndicatorMatcher.findExact _ _);
    [destruct (negb _)
    |destruct (_ && _); [|destruct (IndicatorMatcher.deferredMatch m)]];
    split; reflexivity.
Qed.

Lemma processCellFallback_continues k d :
  continues d (processCellFallback toUpperCase k d).
Proof.
  unfold processCellFallback.
  destruct (tryMatch_tables k (indicatorMatcher d)) as [Hi Hm].
  destruct (IndicatorMatcher.tryMatch k (indicatorMatcher d)) as [r im].
  cbn [snd] in Hi, Hm.
  assert (H0 : continues d (with_indicatorMatcher im d)).
  { repeat split; cbn; auto. exists []. now rewrite app_nil_r. }
  destruct r.
  - eapply continues_trans; [exact H0|apply applyIndicator_continues].
  - eapply continues_trans; [exact H0|].
    eapply continues_trans; [apply applyIndicator_continues|].
    apply forEachCell_continues, processCharacter_continues.
  - exact H0.
  - eapply continues_trans; [exact H0|].
    apply forEachCell_continues, processCharacter_continues.
Qed.

Lemma emitMultiCellMatch_continues entry d :
  continues d (emitMultiCellMatch toUpperCase entry d).
Proof.
  unfold emitMultiCellMatch. cbn. repeat split.
  eexists. split; [reflexivity|]. now repeat constructor.
Qed.

End DriverPipeline.

Section DriverChords.

Variable toUpperCase : jsstring -> jsstring.

Lemma forEachCell_characters_keep_matcher cells d :
  indicatorMatcher (forEachCell (processCharacter toUpperCase) cells d)
  = indicatorMatcher d.
Proof.
  unfold forEachCell. revert d.
  induction cells as [|k cells IH]; intros d; [reflexivity|].
  cbn [fold_left]. rewrite IH.
  now destruct (character_stage_effects toUpperCase k d)
    as (_ & _ & _ & Hi & _).
Qed.

Lemma flushAllPending_effects d :
  continues (with_multiCellMatcher
               (MultiCellMatcher.with_buffer [] (multiCellMatcher d)) d)
            (flushAllPending toUpperCase d)
  /\ IndicatorMatcher.pendingCells
       (indicatorMatcher (flushAllPending toUpperCase d)) = []
  /\ IndicatorMatcher.deferredMatch
       (indicatorMatcher (flushAllPending toUpperCase d)) = None.
Proof.
  unfold flushAllPending, MultiCellMatcher.flushPending,
    IndicatorMatcher.flushPending.
  set (da := with_multiCellMatcher _ d).
  set (db := forEachCell (processCellFallback toUpperCase) _ da).
  set (dc := with_indicatorMatcher _ db).
  assert (Hab : continues da db)
    by (apply forEachCell_continues, processCellFallback_continues).
  assert (Hbc : continues db dc).
  { repeat split; cbn; auto. exists []. now rewrite app_nil_r. }
  split; [|rewrite forEachCell_characters_keep_matcher; cbn; auto].
  eapply continues_trans; [exact Hab|].
  eapply continues_trans; [exact Hbc|].
  apply forEachCell_continues, processCharacter_continues.
Qed.

(** X22: no chord changes the tables: whatever the chord, the unified data, the
    indicator and multi-cell tables held by the matchers, their [maxCells]
    and the activation flag are the same afterwards. The editor is only
    asked for more: a chord without dot 0 adds insertions of text and never
    a space; a chord with dot 0 adds the insertions of the flushed cells,
    if any, and then exactly one space, last. *)
Theorem chord_keeps_tables_and_extends_output (chord : list nat) (d : Driver) :
  let d' := handleChord toUpperCase chord d in
  unifiedData d' = unifiedData d
  /\ isActive d' = isActive d
  /\ IndicatorMatcher.indicators (indicatorMatcher d')
     = IndicatorMatcher.indicators (indicatorMatcher d)
  /\ IndicatorMatcher.maxCells (indicatorMatcher d')
     = IndicatorMatcher.maxCells (indicatorMatcher d)
  /\ MultiCellMatcher.entries (multiCellMatcher d')
     = MultiCellMatcher.entries (multiCellMatcher d)
  /\ MultiCellMatcher.maxCells (multiCellMatcher d')
     = MultiCellMatcher.maxCells (multiCellMatcher d)
  /\ exists l,
       Forall isInsert l
       /\ editorOutput d'
          = editorOutput d ++ l
              ++ (if existsb (Nat.eqb 0) chord then [InsertSpace] else []).
Proof.
  cbv zeta. unfold handleChord.
  destruct (existsb (Nat.eqb 0) chord).
  - destruct (flushAllPending_effects d)
      as ((A & B & C & D & E & F & _ & l & Hl & Hins) & _ & _).
    cbn in *. repeat split; auto.
    exists l. split; [exact Hins|]. now rewrite Hl, app_assoc.
  - set (k := DotMapper.dotsToKey chord).
    set (mode := StateMachine.getMode (stateMachine d)).
    assert (Hmm :
      MultiCellMatcher.entries
        (snd (MultiCellMatcher.tryMatch k mode (multiCellMatcher d)))
      = MultiCellMatcher.entries (multiCellMatcher d)
      /\ MultiCellMatcher.maxCells
           (snd (MultiCellMatcher.tryMatch k mode (multiCellMatcher d)))
         = MultiCellMatcher.maxCells (multiCellMatcher d)).
    { unfold MultiCellMatcher.tryMatch, MultiCellMatcher.recover.
      repeat match goal with
             | |- context [match ?x with _ => _ end] => destruct x
             end; split; reflexivity. }
    destruct (MultiCellMatcher.tryMatch k mode (multiCellMatcher d))
      as [r mm]. cbn [snd] in Hmm. destruct Hmm as [He Hx].
    set (d0 := with_multiCellMatcher mm d).
    assert (Hcont : forall d', continues d0 d' ->
              unifiedData d' = unifiedData d
              /\ isActive d' = isActive d
              /\ IndicatorMatcher.indicators (indicatorMatcher d')
                 = IndicatorMatcher.indicators (indicatorMatcher d)
              /\ IndicatorMatcher.maxCells (indicatorMatcher d')
                 = IndicatorMatcher.maxCells (indicatorMatcher d)
              /\ MultiCellMatcher.entries (multiCellMatcher d')
                 = MultiCellMatcher.entries (multiCellMatcher d)
              /\ MultiCellMatcher.maxCells (multiCellMatcher d')
                 = MultiCellMatcher.maxCells (multiCellMatcher d)
              /\ exists l, Forall isInsert l
                   /\ editorOutput d' = editorOutput d ++ l ++ []).
    { intros d' (A & B & C & D & E & F & _ & l & Hl & Hins).
      cbn in *. repeat split; try congruence.
      exists l. rewrite app_nil_r. auto. }
    destruct r; apply Hcont.
    + apply emitMultiCellMatch_continues.
    + eapply continues_trans; [apply emitMultiCellMatch_continues|].
      apply forEachCell_continues, processCellFallback_continues.
    + apply continues_refl.
    + apply forEachCell_continues, processCellFallback_continues.
Qed.

End DriverChords.



Section DriverSingleCells.

Variable toUpperCase : jsstring -> jsstring.

(** The cell begins nothing: no multi-cell entry and no indicator has the
    cell's key as its key or as its first cell. *)
Definition beginsNothing (k : string) (d : Driver) : Prop :=
  (forall e, In e (MultiCellMatcher.entries (multiCellMatcher d)) ->
     mc_dotsKey e <> k /\ startsWith (mc_dotsKey e) (k +:+ "|") = false)
  /\ (forall i, In i (IndicatorMatcher.indicators (indicatorMatcher d)) ->
        ind_dotsKey i <> k /\ startsWith (ind_dotsKey i) (k +:+ "|") = false).

(** Nothing is buffered in either matcher. *)
Definition nothingBuffered (d : Driver) : Prop :=
  MultiCellMatcher.pendingCells (multiCellMatcher d) = []
  /\ IndicatorMatcher.pendingCells (indicatorMatcher d) = []
  /\ IndicatorMatcher.deferredMatch (indicatorMatcher d) = None.

(** X24: a cell that begins no multi-cell sequence and no indicator is a
    character at once: when nothing is buffered, a chord without dot 0
    whose key is such a cell has exactly the effect of the character stage
    on that key; both matchers are left as they were. *)
Theorem plain_cell_is_a_character (chord : list nat) (d : Driver) :
  existsb (Nat.eqb 0) chord = false ->
  nothingBuffered d ->
  beginsNothing (DotMapper.dotsToKey chord) d ->
  handleChord toUpperCase chord d
  = processCharacter toUpperCase (DotMapper.dotsToKey chord) d.
Proof.
  intros Hsp (Hmb & Hib & Hdef) (Hmc & Hind).
  unfold handleChord. rewrite Hsp.
  set (k := DotMapper.dotsToKey chord) in *.
  set (mode := StateMachine.getMode (stateMachine d)).
  assert (Em : MultiCellMatcher.tryMatch k mode (multiCellMatcher d)
               = (MNone [k], multiCellMatcher d)).
  { unfold MultiCellMatcher.tryMatch. rewrite Hmb. cbn [app].
    change (join "|" [k]) with k.
    assert (E1 : MultiCellMatcher.findExact
                   (MultiCellMatcher.modeEntries (multiCellMatcher d) mode) k
                 = None).
    { apply MatcherFacts.find_absent. intros e He.
      apply filter_In in He as [He _]. apply String.eqb_neq.
      now apply Hmc. }
    assert (E2 : MultiCellMatcher.hasLongerPrefix
                   (MultiCellMatcher.modeEntries (multiCellMatcher d) mode) k
                 = false).
    { apply MatcherFacts.existsb_absent. intros e He.
      apply filter_In in He as [He _]. now apply Hmc. }
    rewrite E1, E2. cbn. f_equal.
    destruct (multiCellMatcher d). cbn in *. now subst. }
  assert (Ei : IndicatorMatcher.tryMatch k (indicatorMatcher d)
               = (INone [k], indicatorMatcher d)).
  { unfold IndicatorMatcher.tryMatch. rewrite Hib, Hdef. cbn [app].
    change (join "|" [k]) with k.
    assert (E1 : IndicatorMatcher.findExact (indicatorMatcher d) k = None).
    { apply MatcherFacts.find_absent. intros i Hi.
      apply String.eqb_neq. now apply Hind. }
    assert (E2 : IndicatorMatcher.hasLongerPrefix (indicatorMatcher d) k
                 = false).
    { apply MatcherFacts.existsb_absent. intros i Hi. now apply Hind. }
    rewrite E1, E2. cbn. f_equal.
    destruct (indicatorMatcher d). cbn in *. now subst. }
  rewrite Em.
  assert (Ed : with_multiCellMatcher (multiCellMatcher d) d = d)
    by (now destruct d).
  rewrite Ed. cbn [forEachCell fold_left].
  unfold processCellFallback. rewrite Ei.
  assert (Ed' : with_indicatorMatcher (indicatorMatcher d) d = d)
    by (now destruct d).
  rewrite Ed'. reflexivity.
Qed.

End DriverSingleCells.

Lemma plain_cell_is_a_character_witness :
  handleChord asciiUpper [2; 1] (activate Scenarios.tables)
  = processCharacter asciiUpper (DotMapper.dotsToKey [2; 1])
                     (activate Scenarios.tables).
Proof.
  apply (plain_cell_is_a_character asciiUpper [2; 1]
           (activate Scenarios.tables)).
  - reflexivity.
  - repeat split.
  - split.
    + intros e He. vm_compute in He.
      destruct He as [<-|[]]. split; [discriminate|reflexivity].
    + intros i Hi. vm_compute in Hi.
      destruct Hi as [<-|[<-|[]]]; (split; [discriminate|reflexivity]).
Defined.

Section DriverModifiers.

Variable toUpperCase : jsstring -> jsstring.

(** X25: a capital modifier reaches one character and no more: with a capital
    pending, outside the numeric continuation, the kana mode and a symbol
    scope, two cells that both have a mapping are emitted as the upper-cased
    print of the first and the plain print of the second. *)
Theorem capital_applies_to_one_character
    (k1 k2 : string) (d : Driver) (mp1 mp2 : DotMapping) :
  StateMachine.pendingModifier (stateMachine d) = Some capital ->
  isNumericMode d = false ->
  StateMachine.getMode (stateMachine d) <> kana ->
  StateMachine.activeScope (stateMachine d) <> Some symbol ->
  DotMapper.lookup (unifiedData d) k1 (StateMachine.getMode (stateMachine d))
    = Some mp1 ->
  DotMapper.lookup (unifiedData d) k2 (StateMachine.getMode (stateMachine d))
    = Some mp2 ->
  editorOutput
    (processCharacter toUpperCase k2 (processCharacter toUpperCase k1 d))
  = editorOutput d
      ++ [Insert (toUpperCase (dm_print mp1)) k1; Insert (dm_print mp2) k2].
Proof.
  intros Hcap Hnum Hkana Hscope H1 H2.
  destruct (character_stage_effects toUpperCase k1 d)
    as (Ho1 & Hsm1 & _ & _ & _ & Hu1 & _).
  assert (Hsm : stateMachine (processCharacter toUpperCase k1 d)
                = StateMachine.set_pendingModifier None (stateMachine d)).
  { rewrite Hsm1. cbn. unfold StateMachine.onCharacterEmitted. cbn.
    now rewrite bool_decide_eq_false_2. }
  assert (Hn1 : isNumericMode (processCharacter toUpperCase k1 d) = false).
  { apply processCharacter_unarmed. intros [E|E]; congruence. }
  destruct (character_stage_effects toUpperCase k2
              (processCharacter toUpperCase k1 d)) as (Ho2 & _).
  rewrite Ho2, Ho1, <- app_assoc. cbn [app]. do 3 f_equal.
  - unfold characterText. rewrite Hcap, Hnum, H1.
    rewrite (bool_decide_eq_false_2 (Some capital = Some numeric))
      by discriminate.
    rewrite (bool_decide_eq_false_2 (_ = kana)) by exact Hkana.
    cbn. now rewrite bool_decide_eq_true_2.
  - f_equal. unfold characterText. rewrite Hsm, Hn1, Hu1.
    change (StateMachine.getMode
              (StateMachine.set_pendingModifier None (stateMachine d)))
      with (StateMachine.getMode (stateMachine d)).
    change (StateMachine.pendingModifier
              (StateMachine.set_pendingModifier None (stateMachine d)))
      with (@None ModifierKind).
    rewrite H2.
    rewrite (bool_decide_eq_false_2 (_ = kana)) by exact Hkana.
    rewrite (bool_decide_eq_false_2 (None = Some numeric)) by discriminate.
    now rewrite (bool_decide_eq_false_2 (None = Some capital)).
Qed.

End DriverModifiers.

Lemma capital_applies_to_one_character_witness :
  let d := processCellFallback asciiUpper "6" (activate Scenarios.tables) in
  editorOutput (processCharacter asciiUpper "12"
                  (processCharacter asciiUpper "1" d))
  = editorOutput d
      ++ [Insert (asciiUpper [97%N]) "1"; Insert [98%N] "12"].
Proof.
  apply (capital_applies_to_one_character asciiUpper "1" "12"
           (processCellFallback asciiUpper "6" (activate Scenarios.tables))
           (mkDotMapping [97%N] "letter" "ueb_a")
           (mkDotMapping [98%N] "letter" "ueb_b"));
    try reflexivity; vm_compute; discriminate.
Defined.

Lemma deferred_match_is_buffered_witness :
  let m := MatcherResults.performAllI
             [MatcherResults.CallTryMatch "6"]
             (IndicatorMatcher.setIndicators
                [MatcherFacts.capitalInd; MatcherFacts.capitalWordInd]
                IndicatorMatcher.new) in
  In MatcherFacts.capitalInd
     [MatcherFacts.capitalInd; MatcherFacts.capitalWordInd]
  /\ IndicatorMatcher.hasPending m = true
  /\ exists pre suf,
       IndicatorMatcher.pendingCells m = pre ++ suf
       /\ pre <> []
       /\ ind_dotsKey MatcherFacts.capitalInd = join "|" pre.
Proof.
  apply (MatcherResults.deferred_match_is_buffered
           [MatcherFacts.capitalInd; MatcherFacts.capitalWordInd]
           [MatcherResults.CallTryMatch "6"] MatcherFacts.capitalInd).
  reflexivity.
Defined.

Lemma single_cell_table_is_well_formed_witness :
  let u := {| ue_dots := "36";
              mappings := fun m =>
                if bool_decide (m = kana)
                then Some (mkDotMapping kanaOpen "open" "kana_bracket")
                else None |} in
  ue_dots u = "36"%string
  /\ forall mode mp, mappings u mode = Some mp ->
       dm_print mp <> [] /\ dm_role mp <> "indicator"%string.
Proof.
  apply (UnifierTables.single_cell_table_is_well_formed
           [("kana"%string, [Scenarios.kanaProfile])] "36").
  reflexivity.
Defined.

Lemma numeric_table_is_well_formed_witness :
  dm_role (mkDotMapping [50%N] "numbers" "ueb_2") = "numbers"%string
  /\ dm_print (mkDotMapping [50%N] "numbers" "ueb_2") <> []
  /\ is_Some (singleCellMap
                (buildUnifiedData
                   [("ueb"%string, [Scenarios.uebProfile])]) !! "12"%string).
Proof.
  apply (UnifierTables.numeric_table_is_well_formed
           [("ueb"%string, [Scenarios.uebProfile])] "12"
           (mkDotMapping [50%N] "numbers" "ueb_2")).
  vm_compute. reflexivity.
Defined.
